(** * Formula parsing and property aggregation of [preprocess.py]

    A shallow embedding of the pure core of [src/preprocess.py]:
    [parse_formula], [is_valid_formula],
    [calculate_compound_neutron_cross_section],
    [calculate_compound_neutron_mass_absorption],
    [create_plotting_dataframe] and [filter_compounds], and of the choices
    [src/plot.py] makes before it draws: which rows a plot selects and
    which colour a marker gets.

    Modelling choices.
    - A Python [str] is a [string]: a sequence of characters with code
      points below 256.  On that range the class [\d] of [re] is [0-9].
    - A Python [float] is an IEEE 754 binary64 number, a [spec_float] at
      precision 53 and maximal exponent 1024; arithmetic is the
      round-to-nearest-even arithmetic of [SpecFloat].
    - A Python [dict] whose iteration order is observed (the parsed
      formula and everything derived from it) is an association list in
      insertion order; the per-column dictionaries of the property table,
      which are only looked up, are [gmap]s, and the set of valid symbols
      is a [gset].
    - Exceptions are the [Raise] results of a small error monad. *)

From Stdlib Require Import ZArith String Ascii SpecFloat Lia.
From stdpp Require Import base option list gmap sets strings.

Local Open Scope Z_scope.
Local Open Scope string_scope.

(** ** Exceptions *)

Inductive exn := ValueError | ZeroDivisionError.

Inductive result (A : Type) :=
| Ok (a : A)
| Raise (e : exn).
Arguments Ok {A} a.
Arguments Raise {A} e.

#[global] Instance result_ret : MRet result := @Ok.
#[global] Instance result_bind : MBind result := fun A B f r =>
  match r with
  | Ok a => f a
  | Raise e => Raise e
  end.

(** A [for] loop whose body may raise: the state is threaded from left to
    right and the first exception ends the loop. *)
Fixpoint for_each {A S : Type} (body : S -> A -> result S) (l : list A) (s : S)
  : result S :=
  match l with
  | [] => Ok s
  | a :: l' => s' ← body s a; for_each body l' s'
  end.

(** ** Floats *)

Module Float.

Definition prec : Z := 53.
Definition emax : Z := 1024.

Abbreviation float := spec_float.

Definition add : float -> float -> float := SFadd prec emax.
Definition mul : float -> float -> float := SFmul prec emax.
Definition div : float -> float -> float := SFdiv prec emax.
Definition valid : float -> bool := valid_binary prec emax.

Definition zero : float := S754_zero false.
Definition one : float := S754_finite false 4503599627370496 (-52).
Definition nan : float := S754_nan.
Definition infinity : float := S754_infinity false.

Definition is_zero (x : float) : bool :=
  match x with S754_zero _ => true | _ => false end.

(** Finite and different from zero. *)
Definition is_finite_nonzero (x : float) : bool :=
  match x with S754_finite _ _ _ => true | _ => false end.



(** [x < y], false when either is a NaN. *)
Definition ltb : float -> float -> bool := SFltb.

(** [x == y], false when either is a NaN; [0.0 == -0.0]. *)
Definition eqb : float -> float -> bool := SFeqb.

(** Not a NaN, and the sign bit is clear: [0.0], a positive number or
    the positive infinity. *)
Definition nonneg (x : float) : bool :=
  match x with
  | S754_zero false | S754_infinity false | S754_finite false _ _ => true
  | _ => false
  end.

Fixpoint pow10 (k : nat) : positive :=
  match k with
  | O => 1
  | S k' => 10 * pow10 k'
  end.

(** The binary64 number nearest to [n / 10 ^ k] (ties to even): the
    value [float] gives to a decimal literal with digits [n], [k] of
    them after the point.  The quotient of the two integers is rounded
    once, by the division of [SpecFloat]. *)
Definition of_decimal (n : Z) (k : nat) : float :=
  match n with
  | Zpos p =>
      SFdiv prec emax (S754_finite false p 0) (S754_finite false (pow10 k) 0)
  | _ => zero
  end.

End Float.

Abbreviation float := Float.float.

(** [x / y] on floats: a zero divisor raises. *)
Definition truediv (x y : float) : result float :=
  if Float.is_zero y then Raise ZeroDivisionError else Ok (Float.div x y).

(** ** Characters and the regular expression *)

Definition code (c : ascii) : N := N_of_ascii c.

Definition is_upper (c : ascii) : bool := (65 <=? code c)%N && (code c <=? 90)%N.
Definition is_lower (c : ascii) : bool := (97 <=? code c)%N && (code c <=? 122)%N.
Definition is_digit (c : ascii) : bool := (48 <=? code c)%N && (code c <=? 57)%N.

(** The longest prefix of [s] whose characters satisfy [p], and the rest:
    a greedy [p*]. *)
Fixpoint span (p : ascii -> bool) (s : string) : string * string :=
  match s with
  | String c s' =>
      if p c then let '(a, b) := span p s' in (String c a, b) else ("", s)
  | EmptyString => ("", s)
  end.

(** An optional ["."]: the greedy [\.?]. *)
Definition opt_dot (s : string) : string * string :=
  match s with
  | String "."%char s' => (".", s')
  | _ => ("", s)
  end.

(** One match of the pattern at the start of [s]: a capital letter and
    the lower-case letters after it (the first group), then digits, an
    optional point and digits (the second group); the result holds the two
    groups and the text after the match.  Every quantifier is greedy and
    everything after the capital letter may match the empty string, so the
    first attempt never backtracks. *)
Definition match_token (s : string) : option ((string * string) * string) :=
  match s with
  | String c s1 =>
      if is_upper c then
        let '(lows, s2) := span is_lower s1 in
        let '(ds1, s3) := span is_digit s2 in
        let '(dot, s4) := opt_dot s3 in
        let '(ds2, s5) := span is_digit s4 in
        Some ((String c lows, ds1 ++ dot ++ ds2), s5)
      else None
  | EmptyString => None
  end.

(** [re.findall]: matches are sought from left to right; after a match the
    scan resumes where it ended, elsewhere it moves on by one character.
    A match consumes at least its capital letter, so [String.length s]
    steps always suffice. *)
Fixpoint findall_from (fuel : nat) (s : string) : list (string * string) :=
  match fuel with
  | O => []
  | S fuel' =>
      match s with
      | EmptyString => []
      | String _ s' =>
          match match_token s with
          | Some (tok, rest) => tok :: findall_from fuel' rest
          | None => findall_from fuel' s'
          end
      end
  end.

Definition findall (s : string) : list (string * string) :=
  findall_from (String.length s) s.

(** ** [float] on the second group *)

Definition digit_val (c : ascii) : Z := Z.of_N (code c) - 48.

Fixpoint digits_value (acc : Z) (s : string) : Z :=
  match s with
  | String c s' => digits_value (10 * acc + digit_val c) s'
  | EmptyString => acc
  end.

(** [float(s)] for the strings the second group can hold: digits, an
    optional point, digits.  At least one digit is required; Python
    raises [ValueError] on [""] and on ["."].  The other spellings
    [float] accepts (signs, exponents, [inf], [nan], blanks, underscores)
    contain a character the group never captures; they are rejected
    here. *)
Definition py_float (s : string) : result float :=
  let '(ip, r) := span is_digit s in
  let '(dot, r') := opt_dot r in
  let '(fp, r'') := span is_digit r' in
  match r'', (ip ++ fp) with
  | EmptyString, String _ _ =>
      Ok (Float.of_decimal (digits_value 0 (ip ++ fp)) (String.length fp))
  | _, _ => Raise ValueError
  end.

(** ** Dictionaries in insertion order *)

Abbreviation dict V := (list (string * V)).

Fixpoint dict_get {V} (d : dict V) (k : string) : option V :=
  match d with
  | [] => None
  | (k', v) :: d' => if String.eqb k' k then Some v else dict_get d' k
  end.

(** [d[k] = v]: an existing key keeps its place, a new one goes last. *)
Fixpoint dict_set {V} (d : dict V) (k : string) (v : V) : dict V :=
  match d with
  | [] => [(k, v)]
  | (k', v') :: d' =>
      if String.eqb k' k then (k', v) :: d' else (k', v') :: dict_set d' k v
  end.

Definition keys {V} (d : dict V) : list string := map fst d.
Definition values {V} (d : dict V) : list V := map snd d.

(** ** [parse_formula] *)

(** [float(count) if count else 1.0] *)
Definition token_index (count : string) : result float :=
  match count with
  | EmptyString => Ok Float.one
  | _ => py_float count
  end.

(** [elements[elem] = elements.get(elem, 0) + count].  The default [0] is
    an [int]; the addition converts it to [0.0]. *)
Definition add_index (elements : dict float) (elem : string) (count : float)
  : dict float :=
  dict_set elements elem
    (Float.add (default Float.zero (dict_get elements elem)) count).

(** The body of the loop over the matches. *)
Definition parse_step (elements : dict float) (tok : string * string)
  : result (dict float) :=
  let '(elem, count) := tok in
  count ← token_index count;
  Ok (add_index elements elem count).

Definition parse_tokens (toks : list (string * string)) (elements : dict float)
  : result (dict float) :=
  for_each parse_step toks elements.

Definition parse_formula (formula : string) : result (dict float) :=
  parse_tokens (findall formula) [].

(** ** The property table *)

(** A row of the elemental property table, with the four columns
    [read_elemental_properties] keeps. *)
Record element_row := {
  Symbol : string;
  Atomic_weight : float;
  Neutron_Cross_Section : float;
  Neutron_Mass_Absorption : float
}.

Definition properties_table := list element_row.

(** [df.set_index("Symbol")[column].to_dict()]: of two rows with the same
    symbol the later one wins. *)
Definition to_dict (column : element_row -> float) (df : properties_table)
  : gmap string float :=
  foldl (fun m row => <[Symbol row := column row]> m) ∅ df.

(** [set(df["Symbol"].unique())] *)
Definition symbols (df : properties_table) : gset string :=
  list_to_set (Symbol <$> df).

(** ** [is_valid_formula] *)

Definition is_valid_formula (formula : string) (valid_elements : gset string)
  : result bool :=
  parsed_elements ← parse_formula formula;
  Ok (bool_decide (list_to_set (keys parsed_elements) ⊆ valid_elements)).

(** ** The aggregators *)

(** The floats of a list added one after the other to [0.0]: what a loop
    [total = 0.0], [total += x] leaves in [total]. *)
Definition add_all (xs : list float) : float := foldl Float.add Float.zero xs.

(** [sum(xs)]: the items are added from left to right to the start value
    [0], which the first addition converts to [0.0].  This is the sum of
    CPython up to 3.11.  From 3.12 on, [sum] carries a correction for the
    rounding errors of the additions after the first, which can change the
    last bits of the sum of several floats; the two agree on the empty
    list, on a list of one float, and whenever the additions are exact.
    The properties below compute [py_sum] on such lists only, and
    otherwise take it as the value of [total_atoms], whatever it is. *)
Definition py_sum (xs : list float) : float := add_all xs.

(** [{element: f(x) for element, x in d.items()}] where [f] may raise. *)
Definition dict_comprehension (f : float -> result float) (d : dict float)
  : result (dict float) :=
  for_each (fun acc '(element, x) => y ← f x; Ok (dict_set acc element y)) d [].

(** The closing loop of both aggregators: every fraction is multiplied by
    the property of its element ([0] when the table lacks the element),
    stored under the element and added to the running total, which starts
    at [0.0].  The value added is the one just stored. *)
Definition weighted_step (property : gmap string float)
    (acc : float * dict float) (item : string * float) : float * dict float :=
  let '(total, contributions) := acc in
  let '(element, fraction) := item in
  let element_property := default Float.zero (property !! element) in
  let contribution := Float.mul fraction element_property in
  (Float.add total contribution, dict_set contributions element contribution).

Definition weighted_total (property : gmap string float) (fractions : dict float)
  : float * dict float :=
  foldl (weighted_step property) (Float.zero, []) fractions.

(** Lines 54 to 68 of [calculate_compound_neutron_cross_section], on an
    already parsed formula. *)
Definition aggregateCrossSection
    (parsed : dict float) (cross_sections : gmap string float)
  : result (float * dict float) :=
  let total_atoms := py_sum (values parsed) in
  atomic_fractions ←
    dict_comprehension (fun count => truediv count total_atoms) parsed;
  Ok (weighted_total cross_sections atomic_fractions).

(** The first loop of [calculate_compound_neutron_mass_absorption]: the
    mass of every element and the total mass. *)
Definition mass_step (atomic_weights : gmap string float)
    (acc : float * dict float) (item : string * float) : float * dict float :=
  let '(total_mass, masses) := acc in
  let '(element, count) := item in
  let weight := default Float.zero (atomic_weights !! element) in
  let mass := Float.mul count weight in
  (Float.add total_mass mass, dict_set masses element mass).

Definition mass_contributions
    (parsed : dict float) (atomic_weights : gmap string float)
  : float * dict float :=
  foldl (mass_step atomic_weights) (Float.zero, []) parsed.

(** Lines 95 to 114 of [calculate_compound_neutron_mass_absorption], on an
    already parsed formula. *)
Definition aggregateMassAbsorption
    (parsed : dict float) (atomic_weights mass_absorptions : gmap string float)
  : result (float * dict float) :=
  let '(total_mass, masses) := mass_contributions parsed atomic_weights in
  mass_fractions ←
    dict_comprehension (fun mass => truediv mass total_mass) masses;
  Ok (weighted_total mass_absorptions mass_fractions).

Definition calculate_compound_neutron_cross_section
    (formula : string) (df : properties_table) : result (float * dict float) :=
  parsed_elements ← parse_formula formula;
  aggregateCrossSection parsed_elements (to_dict Neutron_Cross_Section df).

Definition calculate_compound_neutron_mass_absorption
    (formula : string) (df : properties_table) : result (float * dict float) :=
  parsed_elements ← parse_formula formula;
  aggregateMassAbsorption parsed_elements
    (to_dict Atomic_weight df) (to_dict Neutron_Mass_Absorption df).

(** ** [create_plotting_dataframe] *)

Record plot_row := {
  Formula : string;
  cross_section_total : float;
  mass_absorption_total : float
}.

(** One turn of the loop over the formulas: a valid formula appends its
    record, an invalid one leaves [data] as it is; an exception of the
    parser or of an aggregator ends the whole call. *)
Definition plotting_step (df : properties_table) (valid_elements : gset string)
    (data : list plot_row) (formula : string) : result (list plot_row) :=
  valid ← is_valid_formula formula valid_elements;
  if (valid : bool) then
    cs ← calculate_compound_neutron_cross_section formula df;
    ma ← calculate_compound_neutron_mass_absorption formula df;
    Ok (data ++ [{| Formula := formula;
                    cross_section_total := fst cs;
                    mass_absorption_total := fst ma |}])%list
  else Ok data.

Definition create_plotting_dataframe
    (compounds : list string) (df : properties_table) : result (list plot_row) :=
  for_each (plotting_step df (symbols df)) compounds [].

(** ** [filter_compounds] *)

(** [series.apply(f)]: [f] on every item, in order; the first exception
    ends the call. *)
Fixpoint series_apply {A B} (f : A -> result B) (items : list A)
  : result (list B) :=
  match items with
  | [] => Ok []
  | a :: items' => b ← f a; bs ← series_apply f items'; Ok (b :: bs)
  end.

(** [frame[mask]]: the rows whose entry in the mask is [True]. *)
Fixpoint select_rows {A} (rows : list A) (mask : list bool) : list A :=
  match rows, mask with
  | row :: rows', keep :: mask' =>
      if keep then row :: select_rows rows' mask' else select_rows rows' mask'
  | _, _ => []
  end.

(** A row of the compounds table is its first column, the formula, and
    the rest of the row.  The mask is computed on all the formulas before
    any row is selected.  The formula cells are strings; a cell of another
    type (a blank cell of the spreadsheet is read as a NaN), on which the
    pattern matching raises [TypeError], is outside this model. *)
Definition filter_compounds {R} (compounds_df : list (string * R))
    (elemental_properties_df : properties_table) : result (list (string * R)) :=
  let valid_elements := symbols elemental_properties_df in
  mask ← series_apply (fun formula => is_valid_formula formula valid_elements)
         (fst <$> compounds_df);
  Ok (select_rows compounds_df mask).

(** ** The choices of [plot.py] *)

(** The row filters of [plot_filtered_scatter], [plot_zoom_scatter] and
    [plot_zoom_color_scatter]: comparisons of the two totals with integer
    thresholds, false on a NaN. *)
Definition filtered_selected (row : plot_row) : bool :=
  Float.ltb (Float.of_decimal 31000 0) (cross_section_total row)
  && Float.ltb (Float.of_decimal 5 0) (mass_absorption_total row).

Definition zoom_selected (row : plot_row) : bool :=
  Float.ltb (Float.of_decimal 34500 0) (cross_section_total row)
  && Float.ltb (Float.of_decimal 5 0) (mass_absorption_total row).

Definition zoom_color_selected (row : plot_row) : bool :=
  Float.ltb (Float.of_decimal 34500 0) (cross_section_total row)
  && Float.ltb (cross_section_total row) (Float.of_decimal 50500 0)
  && Float.ltb (Float.of_decimal 5 0) (mass_absorption_total row).

(** The colour [plot_zoom_scatter] gives to the marker of a formula:
    the formula is parsed again, its indices are summed, and the sum is
    compared with [1] and with [14]. *)
Definition zoom_color (formula : string) : result string :=
  element_counts ← parse_formula formula;
  let sum_indices := py_sum (values element_counts) in
  if Float.eqb sum_indices Float.one then Ok "red"
  else if Float.eqb sum_indices (Float.of_decimal 14 0) then Ok "green"
  else Ok "#0348a1".

(** The five groups of [plot_zoom_color_scatter]; [group1] is the second
    of its two assignments, which replaces the first. *)
Definition group1 : gset string :=
  {[ "Gd"; "Gd0.99Zr0.01"; "Gd0.985Zr0.015"; "Gd0.98In0.02"; "Cd0.03Gd0.97";
     "Gd0.95Zr0.05"; "Gd0.93Pr0.07"; "Gd0.9Th0.1"; "Cd0.15Gd0.85";
     "Cd0.17Gd0.83"; "Gd0.8Nd0.2"; "Gd0.8Pr0.2"; "Ce0.2Gd0.8";
     "Gd0.78La0.22"; "Ce0.28Gd0.72" ]}.

Definition group2 : gset string := {[ "C0.03Gd"; "C0.33Gd"; "C0.4Gd" ]}.

Definition group3 : gset string :=
  {[ "Gd3Ir"; "Gd3In"; "Fe0.04Gd3In0.96"; "Gd3In0.95Mn0.05";
     "Gd3In0.95Ni0.05"; "Al0.08Gd3In0.92"; "Gd3Rh"; "CoGd3";
     "Co0.844Gd3V0.156"; "Co0.5Gd3Ni0.5"; "Co0.5Gd3Ru0.5";
     "Gd3Os"; "Gd3Pt"; "Co0.2Gd3Ru0.8"; "Gd3Pd"; "Gd3Ni";
     "Gd3Ru"; "AlGd3" ]}.

Definition group4 : gset string :=
  {[ "Co2Gd14In3"; "Cd3Gd10Os"; "Gd10RuCd3"; "Co3Gd14In2.7"; "Fe1.29Gd5In0.79" ]}.

Definition group5 : gset string := {[ "CoGd9"; "AlC0.1Gd3"; "Gd5Ir2"; "Gd5Ru2" ]}.

(** The colour [plot_zoom_color_scatter] gives to the marker of a
    formula: that of the first group that holds it, gray without one. *)
Definition group_color (formula : string) : string :=
  if decide (formula ∈ group1) then "#c3121e"
  else if decide (formula ∈ group2) then "#0348a1"
  else if decide (formula ∈ group3) then "#ffb01c"
  else if decide (formula ∈ group4) then "#027608"
  else if decide (formula ∈ group5) then "#1dace6"
  else "gray".

(** * The vocabulary of the statements *)

(** ** Texts *)

(** Every character of [s] satisfies [p]. *)
Fixpoint all_chars (p : ascii -> bool) (s : string) : bool :=
  match s with
  | String c s' => p c && all_chars p s'
  | EmptyString => true
  end.

(** [s] does not start with a character that satisfies [p]. *)
Definition stops (p : ascii -> bool) (s : string) : Prop :=
  match s with
  | String c _ => p c = false
  | EmptyString => True
  end.

(** The second group of a match is a digit string, or digits, a point and
    digits. *)
Inductive suffix_shape : string -> Prop :=
| shape_digits (ds : string) :
    all_chars is_digit ds = true -> suffix_shape ds
| shape_point (ds1 ds2 : string) :
    all_chars is_digit ds1 = true -> all_chars is_digit ds2 = true ->
    suffix_shape (ds1 ++ "." ++ ds2).

(** ** Indices of matches *)

(** The index a match stands for: [1.0] without a second group, the
    value of the second group otherwise.  (On a second group that [float]
    rejects the loop raises, and this value is not used.) *)
Definition index_of (count : string) : float :=
  match token_index count with
  | Ok x => x
  | Raise _ => Float.nan
  end.

(** A match whose second group [float] accepts. *)
Definition has_index (tok : string * string) : Prop := tok.2 <> ".".

#[global] Instance has_index_dec (tok : string * string) : Decision (has_index tok).
Proof. unfold has_index. apply _. Defined.

(** The indices of the matches of [elem], in the order of the text. *)
Definition indices_of (elem : string) (toks : list (string * string))
  : list float :=
  (fun tok => index_of tok.2) <$> filter (fun tok => tok.1 = elem) toks.

(** The dictionary the loop builds when no conversion raises. *)
Definition accumulate (toks : list (string * string)) (elements : dict float)
  : dict float :=
  foldl (fun d tok => add_index d tok.1 (index_of tok.2)) elements toks.

(** The symbols of a list of matches, each once, in the order of their
    first match. *)
Fixpoint first_seen (symbols : list string) : list string :=
  match symbols with
  | [] => []
  | x :: rest => x :: filter (fun y => y <> x) (first_seen rest)
  end.

(** Every token of the formula of the row carries an index: the parser
    returns on it. *)
Definition row_parses {R} (row : string * R) : Prop :=
  Forall has_index (findall row.1).

(** ** Fractions and contributions *)

(** A value multiplied by the property of its element, [0] when the table
    has no such element. *)
Definition scale (property : gmap string float) (kv : string * float) : float :=
  Float.mul kv.2 (default Float.zero (property !! kv.1)).

(** The same keys in the same order, every value replaced. *)
Definition dict_map (h : string * float -> float) (d : dict float) : dict float :=
  (fun kv => (kv.1, h kv)) <$> d.

(** The atomic fractions and the contributions of a formula. *)
Definition atomic_fractions (parsed : dict float) : dict float :=
  dict_map (fun kv => Float.div kv.2 (py_sum (values parsed))) parsed.

Definition cross_section_contributions
    (parsed : dict float) (cross_sections : gmap string float) : dict float :=
  dict_map (scale cross_sections) (atomic_fractions parsed).

(** The total mass of a formula: the masses of its elements added from
    left to right. *)
Definition total_mass (parsed : dict float) (weights : gmap string float) : float :=
  add_all (scale weights <$> parsed).

Definition mass_fractions (parsed : dict float) (weights : gmap string float)
  : dict float :=
  dict_map (fun kv => Float.div kv.2 (total_mass parsed weights))
    (dict_map (scale weights) parsed).

Definition mass_absorption_contributions
    (parsed : dict float) (weights absorptions : gmap string float) : dict float :=
  dict_map (scale absorptions) (mass_fractions parsed weights).

(** ** Records of the batch *)

#[global] Instance exn_eq_dec : EqDecision exn.
Proof. solve_decision. Defined.

#[global] Instance result_eq_dec {A} `{EqDecision A} : EqDecision (result A).
Proof. solve_decision. Defined.

(** The turn of the loop for a formula raises nothing: the formula
    parses and, when it is valid, both aggregators return. *)
Definition row_defined (df : properties_table) (formula : string) : Prop :=
  exists valid,
    is_valid_formula formula (symbols df) = Ok valid /\
    (valid = true ->
     exists cs ma,
       calculate_compound_neutron_cross_section formula df = Ok cs /\
       calculate_compound_neutron_mass_absorption formula df = Ok ma).

(** The record holds the two totals of its formula. *)
Definition is_row_of (df : properties_table) (row : plot_row) : Prop :=
  exists c1 c2,
    calculate_compound_neutron_cross_section (Formula row) df
    = Ok (cross_section_total row, c1) /\
    calculate_compound_neutron_mass_absorption (Formula row) df
    = Ok (mass_absorption_total row, c2).

(** The formula is valid and one of the two aggregators divides by zero
    on it. *)
Definition divides_by_zero (df : properties_table) (formula : string) : Prop :=
  is_valid_formula formula (symbols df) = Ok true /\
  (calculate_compound_neutron_cross_section formula df = Raise ZeroDivisionError \/
   calculate_compound_neutron_mass_absorption formula df = Raise ZeroDivisionError).

(** ** Sample tables *)

(** Gadolinium with the index 2, in a one-row table. *)
Definition gadolinium : element_row :=
  {| Symbol := "Gd";
     Atomic_weight := Float.of_decimal 15725 2;
     Neutron_Cross_Section := Float.of_decimal 49700 0;
     Neutron_Mass_Absorption := Float.of_decimal 1910 1 |}.

(** Water with an unknown element [Xx] beside hydrogen and oxygen. *)
Definition hydrogen_oxygen (column : float * float * float -> float)
  : gmap string float :=
  {[ "H" := column (Float.one, Float.of_decimal 33 2, Float.of_decimal 2 2);
     "O" := column (Float.of_decimal 16 0, Float.of_decimal 1 4, Float.of_decimal 1 4) ]}.

(** Hydrogen and oxygen as a table. *)
Definition water_table : properties_table :=
  [ {| Symbol := "H";
       Atomic_weight := Float.one;
       Neutron_Cross_Section := Float.of_decimal 33 2;
       Neutron_Mass_Absorption := Float.of_decimal 2 2 |};
    {| Symbol := "O";
       Atomic_weight := Float.of_decimal 16 0;
       Neutron_Cross_Section := Float.of_decimal 1 4;
       Neutron_Mass_Absorption := Float.of_decimal 1 4 |} ].

(** * Properties *)

(** ** The error monad *)

(** A loop whose body never raises is a left fold. *)
Lemma for_each_pure {A S} (body : S -> A -> result S) (f : S -> A -> S)
    (l : list A) (s : S) :
  Forall (fun a => forall s', body s' a = Ok (f s' a)) l ->
  for_each body l s = Ok (foldl f s l).
Proof.
  intros H. revert s. induction H as [|a l Ha _ IH]; intros s; [reflexivity|].
  cbn. rewrite Ha. cbn. apply IH.
Qed.

(** ** Binary64 arithmetic *)

Module FloatFacts.

Lemma div_eucl_shiftl (m : positive) (s : Z) :
  0 <= s -> Z.div_eucl (Z.shiftl (Z.pos m) s) (Z.pos m) = (2 ^ s, 0).
Proof.
  intros Hs.
  rewrite Z.shiftl_mul_pow2 by done.
  assert (Hq : Z.pos m * 2 ^ s / Z.pos m = 2 ^ s).
  { rewrite Z.mul_comm. apply Z.div_mul. lia. }
  assert (Hr : (Z.pos m * 2 ^ s) mod Z.pos m = 0).
  { rewrite Z.mul_comm. apply Z.mod_mul. lia. }
  unfold Z.div, Z.modulo in Hq, Hr.
  destruct (Z.div_eucl (Z.pos m * 2 ^ s) (Z.pos m)) as [q r].
  simpl in *. congruence.
Qed.

Lemma new_location_zero (n : Z) : new_location n 0 = loc_Exact.
Proof.
  unfold new_location, new_location_even, new_location_odd.
  destruct (Z.even n); reflexivity.
Qed.

(** A finite nonzero number divided by itself is exactly [1.0]. *)
Lemma div_self (s : bool) (m : positive) (e : Z) :
  Float.div (S754_finite s m e) (S754_finite s m e) = Float.one.
Proof.
  unfold Float.div, SFdiv, SFdiv_core_binary.
  rewrite !Z.sub_diag.
  change (Z.min (fexp Float.prec Float.emax 0) 0) with (-53).
  change (0 - -53) with 53.
  cbv iota beta.
  change IntDef.Z.div_eucl with Z.div_eucl.
  rewrite div_eucl_shiftl by lia.
  rewrite new_location_zero.
  destruct s; reflexivity.
Qed.

Lemma digits2_mul_one (m : positive) :
  Zdigits2 (Z.pos (4503599627370496 * m)) = Z.pos (digits2_pos m) + 52.
Proof.
  lazy -[Z.add Pos.succ].
  rewrite !Pos2Z.inj_succ. lia.
Qed.

Lemma iter_shr_mul_one (m : positive) :
  SpecFloat.iter_pos shr_1 52%positive
    (Build_shr_record (Z.pos (4503599627370496 * m)) false false)
  = Build_shr_record (Z.pos m) false false.
Proof. reflexivity. Qed.

Lemma shr_fexp_mul_one (m : positive) (e : Z) :
  canonical_mantissa Float.prec Float.emax m e = true ->
  shr_fexp Float.prec Float.emax (Z.pos (4503599627370496 * m)) (-52 + e) loc_Exact
  = (Build_shr_record (Z.pos m) false false, e).
Proof.
  unfold canonical_mantissa. intros Hc%Z.eqb_eq.
  unfold shr_fexp. rewrite digits2_mul_one.
  replace (Z.pos (digits2_pos m) + 52 + (-52 + e))
    with (Z.pos (digits2_pos m) + e) by lia.
  rewrite Hc.
  replace (e - (-52 + e)) with 52 by lia.
  unfold shr, shr_record_of_loc. rewrite iter_shr_mul_one.
  f_equal. lia.
Qed.

Lemma shr_fexp_canonical (m : positive) (e : Z) :
  canonical_mantissa Float.prec Float.emax m e = true ->
  shr_fexp Float.prec Float.emax (Z.pos m) e loc_Exact
  = (Build_shr_record (Z.pos m) false false, e).
Proof.
  unfold canonical_mantissa. intros Hc%Z.eqb_eq.
  unfold shr_fexp. cbn [Zdigits2]. rewrite Hc, Z.sub_diag. reflexivity.
Qed.

(** [1.0 * x] is [x], for every binary64 number [x]. *)
Lemma mul_one_l (x : float) :
  Float.valid x = true -> Float.mul Float.one x = x.
Proof.
  destruct x as [s|s| |s m e]; try reflexivity.
  cbn [Float.valid valid_binary]. unfold bounded.
  intros [Hc He]%andb_prop.
  unfold Float.mul, Float.one, SFmul, binary_round_aux.
  change (xorb false s) with s.
  rewrite shr_fexp_mul_one by done.
  cbn [shr_m loc_of_shr_record round_nearest_even].
  rewrite shr_fexp_canonical by done.
  cbn [shr_m]. rewrite He. reflexivity.
Qed.

(** [0.0 + x] is [x], except that [0.0 + -0.0] is [0.0]. *)
Lemma add_zero_l (x : float) :
  x <> S754_zero true -> Float.add Float.zero x = x.
Proof.
  destruct x as [[]|s| |s m e]; intros H; try reflexivity. congruence.
Qed.

Lemma add_zero_l_finite (x : float) :
  Float.is_finite_nonzero x = true -> Float.add Float.zero x = x.
Proof. destruct x; try discriminate. reflexivity. Qed.

(** Rounding a magnitude with a positive sign never gives [-0.0]. *)
Lemma round_aux_positive (m e : Z) (l : location) :
  binary_round_aux Float.prec Float.emax false m e l <> S754_zero true.
Proof.
  unfold binary_round_aux.
  destruct (shr_fexp _ _ m e l) as [mrs' e'].
  destruct (shr_fexp _ _ _ e' loc_Exact) as [mrs'' e''].
  destruct (shr_m mrs'') as [|p|p]; try discriminate.
  destruct (Z.leb e'' _); discriminate.
Qed.

Lemma of_decimal_not_negative_zero (n : Z) (k : nat) :
  Float.of_decimal n k <> S754_zero true.
Proof.
  destruct n as [|p|p]; try discriminate.
  unfold Float.of_decimal, SFdiv.
  destruct (SFdiv_core_binary _ _ _ _ _ _) as [[mz ez] lz].
  apply round_aux_positive.
Qed.




End FloatFacts.

(** ** Scanning *)

Lemma string_app_nil_l (s : string) : "" ++ s = s.
Proof. reflexivity. Qed.

Lemma string_app_cons (c : ascii) (a b : string) :
  String c a ++ b = String c (a ++ b).
Proof. reflexivity. Qed.

Section Span.
Variable p : ascii -> bool.

Lemma span_inv (s a b : string) :
  span p s = (a, b) -> s = a ++ b /\ all_chars p a = true /\ stops p b.
Proof.
  revert a b. induction s as [|c s IH]; intros a b; cbn.
  - intros [= <- <-]. done.
  - destruct (p c) eqn:Hc.
    + destruct (span p s) as [a' b']. intros [= <- <-].
      destruct (IH a' b' eq_refl) as (-> & Ha & Hb).
      cbn. rewrite Hc, Ha. done.
    + intros [= <- <-]. cbn. done.
Qed.

Lemma span_app (a b : string) :
  all_chars p a = true -> stops p b -> span p (a ++ b) = (a, b).
Proof.
  intros Ha Hb. induction a as [|c a IH]; cbn in Ha.
  - rewrite string_app_nil_l. destruct b as [|c b]; [done|].
    cbn in *. by rewrite Hb.
  - apply andb_prop in Ha as [Hc Ha].
    rewrite string_app_cons. cbn. by rewrite Hc, IH.
Qed.

Lemma span_all (a : string) : all_chars p a = true -> span p a = (a, "").
Proof.
  intros Ha. induction a as [|c a IH]; cbn in *; [done|].
  apply andb_prop in Ha as [Hc Ha]. by rewrite Hc, IH.
Qed.

Lemma span_length (s a b : string) :
  span p s = (a, b) -> (String.length b <= String.length s)%nat.
Proof.
  revert a b. induction s as [|c s IH]; intros a b; cbn.
  - intros [= <- <-]. done.
  - destruct (p c).
    + destruct (span p s) as [a' b']. intros [= <- <-].
      specialize (IH a' b' eq_refl). lia.
    + intros [= <- <-]. cbn. lia.
Qed.
End Span.

Lemma string_app_nil_r (s : string) : s ++ "" = s.
Proof.
  induction s as [|c s IH]; [done|]. by rewrite string_app_cons, IH.
Qed.

Lemma opt_dot_length (s dot s' : string) :
  opt_dot s = (dot, s') -> (String.length s' <= String.length s)%nat.
Proof.
  destruct s as [|c s]; cbn; [by intros [= <- <-]|].
  destruct (Ascii.eqb c ".") eqn:Hc.
  - apply Ascii.eqb_eq in Hc as ->. intros [= <- <-]. lia.
  - destruct c as [[] [] [] [] [] [] [] []]; try discriminate;
      intros [= <- <-]; cbn; lia.
Qed.

(** A digit is not a lower-case letter. *)
Lemma digit_not_lower (c : ascii) : is_digit c = true -> is_lower c = false.
Proof.
  unfold is_digit, is_lower.
  rewrite andb_true_iff, andb_false_iff, !N.leb_le, !N.leb_gt. lia.
Qed.

(** *** One match *)

Lemma match_token_shorter (s rest : string) (tok : string * string) :
  match_token s = Some (tok, rest) -> (String.length rest < String.length s)%nat.
Proof.
  destruct s as [|c s1]; [done|]. cbn.
  destruct (is_upper c); [|done].
  destruct (span is_lower s1) as [lows s2] eqn:H1.
  destruct (span is_digit s2) as [ds1 s3] eqn:H2.
  destruct (opt_dot s3) as [dot s4] eqn:H3.
  destruct (span is_digit s4) as [ds2 s5] eqn:H4.
  intros [= <- <-].
  apply span_length in H1, H2, H4. apply opt_dot_length in H3. lia.
Qed.

Lemma match_token_shape (s rest elem count : string) :
  match_token s = Some ((elem, count), rest) -> suffix_shape count.
Proof.
  destruct s as [|c s1]; [done|]. cbn.
  destruct (is_upper c); [|done].
  destruct (span is_lower s1) as [lows s2] eqn:H1.
  destruct (span is_digit s2) as [ds1 s3] eqn:H2.
  destruct (opt_dot s3) as [dot s4] eqn:H3.
  destruct (span is_digit s4) as [ds2 s5] eqn:H4.
  intros [= <- <- <-].
  apply span_inv in H2 as (-> & Hds1 & Hs3).
  apply span_inv in H4 as (E4 & Hds2 & Hs5).
  destruct s3 as [|d s3]; cbn in H3.
  - injection H3 as <- <-. destruct ds2; [|done].
    rewrite string_app_nil_l, string_app_nil_r. by constructor.
  - destruct (Ascii.eqb d ".") eqn:Hd.
    + apply Ascii.eqb_eq in Hd as ->. injection H3 as <- <-.
      by constructor.
    + assert (dot = "" /\ s4 = String d s3) as [-> ->].
      { destruct d as [[] [] [] [] [] [] [] []]; try discriminate;
          by injection H3 as <- <-. }
      destruct ds2 as [|d2 ds2].
      * rewrite string_app_nil_l, string_app_nil_r. by constructor.
      * rewrite string_app_cons in E4. injection E4 as -> E4.
        cbn in Hs3, Hds2.
        apply andb_prop in Hds2 as [Hd2 _]. congruence.
Qed.

(** *** All matches *)

(** Fuel beyond the length of the text changes nothing. *)
Lemma findall_from_enough (fuel : nat) (s : string) :
  (String.length s <= fuel)%nat -> findall_from fuel s = findall s.
Proof.
  unfold findall.
  remember (String.length s) as n eqn:Hn.
  revert s fuel Hn.
  induction n as [n IH] using lt_wf_ind. intros s fuel -> Hfuel.
  destruct s as [|c s]; [by destruct fuel|].
  destruct fuel as [|fuel]; [cbn in Hfuel; lia|].
  cbn [String.length findall_from] in *.
  destruct (match_token (String c s)) as [[tok rest]|] eqn:Hm.
  - apply match_token_shorter in Hm. cbn [String.length] in Hm.
    f_equal.
    rewrite (IH (String.length rest)) by (done || lia).
    symmetry. apply (IH (String.length rest)); (done || lia).
  - rewrite (IH (String.length s)) by (done || lia).
    symmetry. apply (IH (String.length s)); (done || lia).
Qed.

Lemma findall_nil : findall "" = [].
Proof. reflexivity. Qed.

Lemma findall_match (s rest : string) (tok : string * string) :
  match_token s = Some (tok, rest) -> findall s = tok :: findall rest.
Proof.
  intros Hm. pose proof (match_token_shorter _ _ _ Hm) as Hlen.
  destruct s as [|c s]; [done|].
  unfold findall at 1. cbn [String.length findall_from] in *.
  rewrite Hm. f_equal. apply findall_from_enough. lia.
Qed.

Lemma findall_skip (c : ascii) (s : string) :
  match_token (String c s) = None -> findall (String c s) = findall s.
Proof.
  intros Hm. unfold findall at 1. cbn [String.length findall_from].
  by rewrite Hm.
Qed.

(** Every second group found has the shape of the pattern. *)
Lemma findall_shape (s : string) :
  Forall (fun tok => suffix_shape tok.2) (findall s).
Proof.
  remember (String.length s) as n eqn:Hn. revert s Hn.
  induction n as [n IH] using lt_wf_ind. intros s ->.
  destruct s as [|c s]; [constructor|].
  destruct (match_token (String c s)) as [[[elem count] rest]|] eqn:Hm.
  - rewrite (findall_match _ _ _ Hm). constructor.
    + eapply match_token_shape, Hm.
    + apply match_token_shorter in Hm. by eapply IH.
  - rewrite (findall_skip _ _ Hm). eapply IH; [|done]. cbn. lia.
Qed.

(** A text without a capital letter has no match. *)
Lemma findall_no_upper (s : string) :
  all_chars (fun c => negb (is_upper c)) s = true -> findall s = [].
Proof.
  induction s as [|c s IH]; [done|]. cbn [all_chars].
  intros [Hc Hs]%andb_prop. apply negb_true_iff in Hc.
  rewrite findall_skip; [by apply IH|]. cbn. by rewrite Hc.
Qed.

(** A symbol followed by digits at the end of the text is one match. *)
Lemma match_token_symbol_digits (c : ascii) (lows ds : string) :
  is_upper c = true -> all_chars is_lower lows = true ->
  all_chars is_digit ds = true ->
  match_token (String c lows ++ ds) = Some ((String c lows, ds), "").
Proof.
  intros Hc Hlows Hds. rewrite string_app_cons. cbn. rewrite Hc.
  rewrite (span_app is_lower lows ds Hlows).
  2:{ destruct ds as [|d ds]; [done|]. cbn in *.
      apply andb_prop in Hds as [Hd _]. by apply digit_not_lower. }
  rewrite (span_all is_digit ds Hds). cbn.
  by rewrite string_app_nil_r.
Qed.

(** ** [float] on a second group *)

Lemma py_float_digits (ds : string) :
  all_chars is_digit ds = true -> ds <> "" ->
  py_float ds = Ok (Float.of_decimal (digits_value 0 ds) 0).
Proof.
  intros Hds Hne. unfold py_float.
  rewrite (span_all is_digit ds Hds). cbn.
  rewrite string_app_nil_r. by destruct ds.
Qed.

Lemma py_float_shape (count : string) :
  suffix_shape count -> count <> "" -> count <> "." ->
  exists x, py_float count = Ok x /\ x <> S754_zero true.
Proof.
  intros [ds Hds|ds1 ds2 H1 H2] Hne Hdot.
  - rewrite py_float_digits by done.
    eexists; split; [done|]. apply FloatFacts.of_decimal_not_negative_zero.
  - unfold py_float.
    rewrite (span_app is_digit ds1 ("." ++ ds2) H1) by done.
    cbv beta iota.
    change (opt_dot ("." ++ ds2)) with (".", ds2).
    cbv beta iota.
    rewrite (span_all is_digit ds2 H2).
    destruct (ds1 ++ ds2) as [|d ds] eqn:E.
    + destruct ds1; [|done]. destruct ds2; [|done]. done.
    + eexists; split; [done|]. apply FloatFacts.of_decimal_not_negative_zero.
Qed.

(** The conversion of a second group fails on the lone point only. *)
Lemma token_index_shape (count : string) :
  suffix_shape count -> count <> "." ->
  exists x, token_index count = Ok x /\ x <> S754_zero true.
Proof.
  intros Hshape Hdot. destruct count as [|c count].
  - exists Float.one. done.
  - by apply py_float_shape.
Qed.

Lemma token_index_point : token_index "." = Raise ValueError.
Proof. reflexivity. Qed.

(** ** Dictionaries *)

Local Open Scope list_scope.

Section Dict.
Context {V : Type}.
Implicit Types (d : dict V) (k : string) (v : V).

Lemma dict_get_set d k v k' :
  dict_get (dict_set d k v) k' = if decide (k = k') then Some v else dict_get d k'.
Proof.
  induction d as [|[k0 v0] d IH]; cbn.
  - destruct (String.eqb_spec k k'), (decide (k = k')); done.
  - destruct (String.eqb_spec k0 k) as [->|Hk]; cbn.
    + destruct (String.eqb_spec k k'), (decide (k = k')); done.
    + rewrite IH. destruct (String.eqb_spec k0 k'); [|done].
      destruct (decide (k = k')); congruence.
Qed.

Lemma dict_get_set_eq d k v : dict_get (dict_set d k v) k = Some v.
Proof. rewrite dict_get_set. by destruct (decide (k = k)). Qed.

Lemma dict_get_set_ne d k v k' :
  k <> k' -> dict_get (dict_set d k v) k' = dict_get d k'.
Proof. intros. rewrite dict_get_set. by destruct (decide (k = k')). Qed.

Lemma dict_get_None d k : dict_get d k = None <-> k ∉ keys d.
Proof.
  induction d as [|[k0 v0] d IH]; cbn.
  - split; [intros _; apply not_elem_of_nil | done].
  - rewrite not_elem_of_cons.
    destruct (String.eqb_spec k0 k) as [->|Hk].
    + split; [done | by intros [? _]].
    + rewrite IH. split; [by split; [congruence|] | by intros [_ ?]].
Qed.

(** Setting a new key appends the entry. *)
Lemma dict_set_new d k v : k ∉ keys d -> dict_set d k v = d ++ [(k, v)].
Proof.
  induction d as [|[k0 v0] d IH]; cbn; [done|].
  rewrite not_elem_of_cons. intros [Hk Hd].
  destruct (String.eqb_spec k0 k); [congruence|]. by rewrite IH.
Qed.

Lemma keys_dict_set d k v :
  keys (dict_set d k v) = if decide (k ∈ keys d) then keys d else keys d ++ [k].
Proof.
  destruct (decide (k ∈ keys d)) as [Hin|Hout].
  - induction d as [|[k0 v0] d IH]; cbn in *; [by apply elem_of_nil in Hin|].
    destruct (String.eqb_spec k0 k) as [->|Hk]; cbn; [done|].
    apply elem_of_cons in Hin as [->|Hin]; [done|]. f_equal. by apply IH.
  - rewrite dict_set_new by done. unfold keys. by rewrite map_app.
Qed.

Lemma dict_set_NoDup d k v : NoDup (keys d) -> NoDup (keys (dict_set d k v)).
Proof.
  intros Hd. rewrite keys_dict_set. destruct (decide (k ∈ keys d)) as [|Hk]; [done|].
  apply NoDup_app. split_and!; [done| |apply NoDup_singleton].
  intros x Hx ->%list_elem_of_singleton. done.
Qed.

Lemma dict_set_not_nil d k v : dict_set d k v <> [].
Proof. destruct d as [|[k0 v0] d]; cbn; [done|]. by destruct (k0 =? k)%string. Qed.

Lemma filter_key_absent d k : k ∉ keys d -> filter (fun kv => kv.1 = k) d = [].
Proof.
  induction d as [|[k0 v0] d IH]; [done|].
  change (keys ((k0, v0) :: d)) with (k0 :: keys d).
  rewrite not_elem_of_cons. intros [Hk Hd].
  rewrite filter_cons_False by (cbn; congruence). by apply IH.
Qed.

(** In a dictionary, the entry found under a key is the only one with
    that key. *)
Lemma dict_get_single d k v :
  NoDup (keys d) -> dict_get d k = Some v ->
  filter (fun kv => kv.1 = k) d = [(k, v)].
Proof.
  induction d as [|[k0 v0] d IH]; [done|].
  change (keys ((k0, v0) :: d)) with (k0 :: keys d).
  intros [Hk0 Hd]%NoDup_cons. cbn [dict_get].
  destruct (String.eqb_spec k0 k) as [->|Hk].
  - intros [= ->]. rewrite filter_cons_True by done.
    by rewrite filter_key_absent.
  - intros Hget. rewrite filter_cons_False by done. by apply IH.
Qed.

End Dict.

(** ** The loop of [parse_formula] *)

Lemma token_index_raises (count : string) (e : exn) :
  token_index count = Raise e -> e = ValueError.
Proof.
  destruct count as [|c count]; [done|].
  unfold token_index, py_float.
  destruct (span is_digit _) as [ip r]. destruct (opt_dot r) as [dot r'].
  destruct (span is_digit r') as [fp r''].
  destruct r''; [|congruence]. destruct (ip ++ fp)%string; congruence.
Qed.

Lemma token_index_has_index (tok : string * string) :
  suffix_shape tok.2 -> has_index tok ->
  token_index tok.2 = Ok (index_of tok.2) /\ index_of tok.2 <> S754_zero true.
Proof.
  intros Hs Hi. destruct (token_index_shape _ Hs Hi) as (x & Hx & Hnz).
  unfold index_of. by rewrite Hx.
Qed.

Lemma parse_tokens_accumulate (toks : list (string * string)) (d : dict float) :
  Forall (fun tok => suffix_shape tok.2) toks -> Forall has_index toks ->
  parse_tokens toks d = Ok (accumulate toks d).
Proof.
  intros Hs Hi. apply for_each_pure.
  apply Forall_forall. intros [elem count] Hin d'.
  rewrite Forall_forall in Hs, Hi.
  destruct (token_index_has_index (elem, count)) as [Hok _]; [by apply Hs | by apply Hi |].
  cbn in *. by rewrite Hok.
Qed.

Lemma parse_tokens_point (toks : list (string * string)) (d : dict float) :
  Exists (fun tok => ~ has_index tok) toks ->
  parse_tokens toks d = Raise ValueError.
Proof.
  intros Hex. revert d. induction toks as [|[elem count] toks IH]; intros d.
  - by apply Exists_nil in Hex.
  - unfold parse_tokens. cbn.
    destruct (token_index count) as [x|e] eqn:Hx; cbn.
    + apply IH. apply Exists_cons in Hex as [Hhd|]; [|done].
      unfold has_index in Hhd. cbn in Hhd.
      destruct (decide (count = ".")) as [->|]; [done|]. by destruct Hhd.
    + by rewrite (token_index_raises _ _ Hx).
Qed.

Lemma accumulate_cons (tok : string * string) (toks : list (string * string))
    (d : dict float) :
  accumulate (tok :: toks) d = accumulate toks (add_index d tok.1 (index_of tok.2)).
Proof. reflexivity. Qed.

Lemma accumulate_NoDup (toks : list (string * string)) (d : dict float) :
  NoDup (keys d) -> NoDup (keys (accumulate toks d)).
Proof.
  revert d. induction toks as [|tok toks IH]; intros d Hd; [done|].
  rewrite accumulate_cons. apply IH. by apply dict_set_NoDup.
Qed.

(** What the loop leaves under a symbol: the entry it started with when
    the symbol has no match, and otherwise the indices of its matches
    added, from left to right, to the entry it started with (or to [0]). *)
Lemma accumulate_get (toks : list (string * string)) (d : dict float) (elem : string) :
  dict_get (accumulate toks d) elem =
    match indices_of elem toks with
    | [] => dict_get d elem
    | idx => Some (foldl Float.add (default Float.zero (dict_get d elem)) idx)
    end.
Proof.
  revert d. induction toks as [|[e c] toks IH]; intros d; [done|].
  rewrite accumulate_cons, IH. unfold indices_of. cbn [fst snd].
  destruct (decide (e = elem)) as [->|Hne].
  - rewrite filter_cons_True by done. rewrite fmap_cons.
    unfold add_index at 1 2. rewrite !dict_get_set_eq. cbn.
    by destruct (_ <$> filter _ toks).
  - rewrite filter_cons_False by done.
    unfold add_index. by rewrite dict_get_set_ne.
Qed.

Lemma indices_of_nil_iff (elem : string) (toks : list (string * string)) :
  indices_of elem toks = [] <-> elem ∉ toks.*1.
Proof.
  unfold indices_of.
  induction toks as [|[e c] toks IH]; cbn [fmap list_fmap fst].
  - split; [intros _; apply not_elem_of_nil | done].
  - rewrite not_elem_of_cons. destruct (decide (e = elem)) as [->|Hne].
    + rewrite filter_cons_True by done. split; [done | by intros []].
    + rewrite filter_cons_False by done. rewrite IH.
      split; [by split | by intros []].
Qed.

(** The parser returns exactly when every second group is convertible;
    the lone point is the one that is not. *)
Lemma parse_formula_returns (formula : string) :
  Forall has_index (findall formula) ->
  parse_formula formula = Ok (accumulate (findall formula) []).
Proof. intros. apply parse_tokens_accumulate; [apply findall_shape | done]. Qed.

Lemma parse_formula_raises (formula : string) :
  ~ Forall has_index (findall formula) ->
  parse_formula formula = Raise ValueError.
Proof.
  intros Hn. apply parse_tokens_point.
  apply not_Forall_Exists; [|done]. intros tok. unfold has_index. apply _.
Qed.

(** The entry of a symbol with a match. *)
Lemma parse_formula_lookup (formula elem : string) (d : dict float) :
  parse_formula formula = Ok d -> elem ∈ (findall formula).*1 ->
  NoDup (keys d) /\
  filter (fun kv => kv.1 = elem) d
    = [(elem, add_all (indices_of elem (findall formula)))].
Proof.
  intros Hp Hin.
  destruct (decide (Forall has_index (findall formula))) as [Hi|Hn].
  2:{ rewrite parse_formula_raises in Hp by done. done. }
  rewrite parse_formula_returns in Hp by done. injection Hp as <-.
  assert (Hnd : NoDup (keys (accumulate (findall formula) []))).
  { apply accumulate_NoDup. constructor. }
  split; [done|]. apply dict_get_single; [done|].
  rewrite accumulate_get.
  destruct (indices_of elem (findall formula)) eqn:E; [|done].
  apply indices_of_nil_iff in E. done.
Qed.

(** Closed decidable facts are settled by evaluation. *)
Ltac by_evaluation := apply (bool_decide_unpack _); vm_compute; exact I.

(** ** The parser: claims *)

(** C3, at the input where the code departs from it: in ["H."] the symbol
    [H] is followed by a lone point, which the pattern accepts as second
    group; the parser then raises [ValueError] instead of returning a
    mapping. *)
Theorem parse_formula_lone_point :
  findall "H." = [("H", ".")] /\
  suffix_shape "." /\
  parse_formula "H." = Raise ValueError.
Proof.
  split_and!; [reflexivity| |reflexivity].
  by apply (shape_point "" "").
Qed.

(** C9: a formula made of one element symbol (a capital letter and
    lower-case letters) followed by an integer literal parses to exactly
    the one-entry mapping from the symbol to the float nearest to the
    integer the literal denotes, which is what [float] returns on the
    literal. *)
Theorem parse_formula_symbol_integer (c : ascii) (lows digits : string) :
  is_upper c = true -> all_chars is_lower lows = true ->
  all_chars is_digit digits = true -> digits <> "" ->
  py_float digits = Ok (Float.of_decimal (digits_value 0 digits) 0) /\
  parse_formula (String c lows ++ digits)%string
    = Ok [(String c lows, Float.of_decimal (digits_value 0 digits) 0)].
Proof.
  intros Hc Hlows Hds Hne.
  pose proof (py_float_digits digits Hds Hne) as Hf. split; [done|].
  unfold parse_formula.
  rewrite (findall_match _ _ _ (match_token_symbol_digits c lows digits Hc Hlows Hds)).
  rewrite findall_nil. unfold parse_tokens. cbn [for_each parse_step].
  assert (token_index digits = py_float digits) as -> by (by destruct digits).
  rewrite Hf. cbn -[Float.add Float.of_decimal].
  by rewrite FloatFacts.add_zero_l
    by apply FloatFacts.of_decimal_not_negative_zero.
Qed.

Lemma parse_formula_symbol_integer_witness :
  py_float "10" = Ok (Float.of_decimal 10 0) /\
  parse_formula "Gd10" = Ok [("Gd", Float.of_decimal 10 0)].
Proof.
  apply (parse_formula_symbol_integer "G" "d" "10"); by_evaluation.
Defined.

(** C5, at an input where the code departs from it: in ["GdGd."] the
    symbol [Gd] occurs in two tokens and the second is followed by a lone
    point; the parser raises [ValueError] instead of returning a mapping
    with a single entry for [Gd].  The conversion that raises is the one
    of C3. *)
Theorem parse_formula_repeated_lone_point :
  findall "GdGd." = [("Gd", ""); ("Gd", ".")] /\
  (2 <= length (filter (fun tok => tok.1 = "Gd") (findall "GdGd.")))%nat /\
  parse_formula "GdGd." = Raise ValueError.
Proof. split_and!; [reflexivity | by_evaluation | reflexivity]. Qed.

(** Repeated symbols away from the lone point: when the tokens of a
    formula all carry an index and a symbol occurs in two or more of them,
    the parser returns a mapping with distinct keys whose only entry for
    the symbol holds the sum, from left to right, of the indices of these
    tokens. *)
Lemma parse_formula_repeated_symbol (formula elem : string) :
  Forall has_index (findall formula) ->
  (2 <= length (filter (fun tok => tok.1 = elem) (findall formula)))%nat ->
  exists d,
    parse_formula formula = Ok d /\
    NoDup (keys d) /\
    filter (fun kv => kv.1 = elem) d
      = [(elem, add_all (indices_of elem (findall formula)))].
Proof.
  intros Hi Hocc. eexists. split; [by apply parse_formula_returns|].
  apply parse_formula_lookup; [by apply parse_formula_returns|].
  destruct (decide (elem ∈ (findall formula).*1)) as [|Hout]; [done|].
  apply indices_of_nil_iff in Hout. unfold indices_of in Hout.
  apply fmap_nil_inv in Hout. rewrite Hout in Hocc. cbn in Hocc. lia.
Qed.

Lemma parse_formula_repeated_symbol_witness :
  exists d,
    parse_formula "GdGd2" = Ok d /\
    NoDup (keys d) /\
    filter (fun kv => kv.1 = "Gd") d = [("Gd", Float.of_decimal 3 0)].
Proof.
  apply (parse_formula_repeated_symbol "GdGd2" "Gd"); by_evaluation.
Defined.

(** C10: in a formula whose tokens all carry an index, a token without
    second group counts [1.0]: the entry of its symbol is the sum, from
    left to right, of the indices of the symbol's tokens, in which this
    token stands for [1.0]; when it is the only token of its symbol the
    entry is exactly [1.0]. *)
Theorem parse_formula_bare_symbol
    (formula elem : string) (before after : list (string * string)) :
  findall formula = before ++ (elem, "") :: after ->
  Forall has_index (findall formula) ->
  exists d,
    parse_formula formula = Ok d /\
    indices_of elem (findall formula)
      = indices_of elem before ++ Float.one :: indices_of elem after /\
    dict_get d elem
      = Some (add_all (indices_of elem (findall formula))) /\
    (elem ∉ before.*1 -> elem ∉ after.*1 -> dict_get d elem = Some Float.one).
Proof.
  intros Hsplit Hi. eexists. split; [by apply parse_formula_returns|].
  assert (Hidx : indices_of elem (findall formula)
                 = indices_of elem before ++ Float.one :: indices_of elem after).
  { rewrite Hsplit. unfold indices_of.
    rewrite filter_app, filter_cons_True by done. by rewrite fmap_app. }
  split; [done|].
  rewrite accumulate_get. cbn [dict_get default].
  split.
  - rewrite Hidx. by destruct (indices_of elem before).
  - intros Hb%indices_of_nil_iff Ha%indices_of_nil_iff.
    rewrite Hidx, Hb, Ha. reflexivity.
Qed.

Lemma parse_formula_bare_symbol_witness :
  exists d,
    parse_formula "H2O" = Ok d /\
    indices_of "O" (findall "H2O") = [Float.one] /\
    dict_get d "O" = Some Float.one /\
    ("O" ∉ ["H"] -> "O" ∉ [] -> dict_get d "O" = Some Float.one).
Proof.
  apply (parse_formula_bare_symbol "H2O" "O" [("H", "2")] []);
    [reflexivity | by_evaluation].
Defined.

(** ** The loops of the aggregators *)

Lemma keys_dict_map h (d : dict float) : keys (dict_map h d) = keys d.
Proof. induction d as [|[k x] d IH]; cbn; [done|]. f_equal. apply IH. Qed.

Lemma values_dict_map h (d : dict float) : values (dict_map h d) = h <$> d.
Proof. induction d as [|[k x] d IH]; cbn; [done|]. f_equal. apply IH. Qed.


(** Storing one value per key of a dictionary, into a dictionary that has
    none of these keys, appends them in order. *)
Lemma dict_build h (d c0 : dict float) :
  NoDup (keys c0 ++ keys d) ->
  foldl (fun c kv => dict_set c kv.1 (h kv)) c0 d = c0 ++ dict_map h d.
Proof.
  revert c0. induction d as [|[k x] d IH]; intros c0 Hnd; cbn.
  - by rewrite app_nil_r.
  - change (keys ((k, x) :: d)) with (k :: keys d) in Hnd.
    assert (Hk : k ∉ keys c0).
    { apply NoDup_app in Hnd as (_ & Hdisj & _). intros Hin.
      apply (Hdisj k Hin). by left. }
    rewrite dict_set_new by done. rewrite IH.
    + by rewrite <- app_assoc.
    + unfold keys at 1. rewrite map_app. cbn. by rewrite <- app_assoc.
Qed.

Lemma dict_build_nil h (d : dict float) :
  NoDup (keys d) ->
  foldl (fun c kv => dict_set c kv.1 (h kv)) [] d = dict_map h d.
Proof. intros. by rewrite dict_build. Qed.

Lemma weighted_total_split (property : gmap string float) (fractions : dict float) :
  weighted_total property fractions
  = (add_all (scale property <$> fractions),
     foldl (fun c kv => dict_set c kv.1 (scale property kv)) [] fractions).
Proof.
  unfold weighted_total, add_all.
  enough (H : forall t c,
    foldl (weighted_step property) (t, c) fractions
    = (foldl Float.add t (scale property <$> fractions),
       foldl (fun c kv => dict_set c kv.1 (scale property kv)) c fractions))
    by apply H.
  induction fractions as [|[k x] l IH]; intros t c; [done|]. apply IH.
Qed.

Lemma mass_contributions_split (parsed : dict float) (weights : gmap string float) :
  mass_contributions parsed weights
  = (add_all (scale weights <$> parsed),
     foldl (fun c kv => dict_set c kv.1 (scale weights kv)) [] parsed).
Proof.
  unfold mass_contributions, add_all.
  enough (H : forall t c,
    foldl (mass_step weights) (t, c) parsed
    = (foldl Float.add t (scale weights <$> parsed),
       foldl (fun c kv => dict_set c kv.1 (scale weights kv)) c parsed))
    by apply H.
  induction parsed as [|[k x] l IH]; intros t c; [done|]. apply IH.
Qed.

Lemma weighted_total_dict (property : gmap string float) (fractions : dict float) :
  NoDup (keys fractions) ->
  weighted_total property fractions
  = (add_all (values (dict_map (scale property) fractions)),
     dict_map (scale property) fractions).
Proof.
  intros. by rewrite weighted_total_split, dict_build_nil, values_dict_map.
Qed.

Lemma dict_comprehension_div (d : dict float) (total : float) :
  Float.is_zero total = false -> NoDup (keys d) ->
  dict_comprehension (fun x => truediv x total) d
  = Ok (dict_map (fun kv => Float.div kv.2 total) d).
Proof.
  intros Hz Hnd. unfold dict_comprehension.
  rewrite (for_each_pure _ (fun c kv => dict_set c kv.1 (Float.div kv.2 total))).
  - by rewrite dict_build_nil.
  - apply Forall_forall. intros [k x] _ c. unfold truediv. by rewrite Hz.
Qed.

Lemma dict_comprehension_zero (d : dict float) (total : float) :
  d <> [] -> Float.is_zero total = true ->
  dict_comprehension (fun x => truediv x total) d = Raise ZeroDivisionError.
Proof.
  intros Hd Hz. destruct d as [|[k x] d]; [done|].
  unfold dict_comprehension, truediv. cbn. by rewrite Hz.
Qed.

Lemma foldl_dict_set_not_nil h (d c0 : dict float) :
  d <> [] -> foldl (fun c kv => dict_set c kv.1 (h kv)) c0 d <> [].
Proof.
  revert c0. induction d as [|kv d IH]; intros c0 Hd; [done|]. cbn.
  destruct d as [|kv' d]; [apply dict_set_not_nil | by apply IH].
Qed.

(** *** Atomic-fraction weighting *)

Lemma aggregateCrossSection_nil (cross_sections : gmap string float) :
  aggregateCrossSection [] cross_sections = Ok (Float.zero, []).
Proof. reflexivity. Qed.

Lemma aggregateCrossSection_zero (parsed : dict float) cross_sections :
  parsed <> [] -> Float.is_zero (py_sum (values parsed)) = true ->
  aggregateCrossSection parsed cross_sections = Raise ZeroDivisionError.
Proof.
  intros Hne Hz. unfold aggregateCrossSection.
  by rewrite dict_comprehension_zero.
Qed.

Lemma aggregateCrossSection_returns (parsed : dict float) cross_sections :
  NoDup (keys parsed) -> Float.is_zero (py_sum (values parsed)) = false ->
  aggregateCrossSection parsed cross_sections
  = Ok (add_all (values (cross_section_contributions parsed cross_sections)),
        cross_section_contributions parsed cross_sections).
Proof.
  intros Hnd Hz. unfold aggregateCrossSection.
  rewrite dict_comprehension_div by done. cbn.
  rewrite weighted_total_dict; [done|]. by rewrite keys_dict_map.
Qed.

(** *** Mass-fraction weighting *)

Lemma aggregateMassAbsorption_nil (weights absorptions : gmap string float) :
  aggregateMassAbsorption [] weights absorptions = Ok (Float.zero, []).
Proof. reflexivity. Qed.

Lemma aggregateMassAbsorption_zero (parsed : dict float) weights absorptions :
  parsed <> [] -> Float.is_zero (total_mass parsed weights) = true ->
  aggregateMassAbsorption parsed weights absorptions = Raise ZeroDivisionError.
Proof.
  intros Hne Hz. unfold aggregateMassAbsorption.
  rewrite mass_contributions_split.
  rewrite dict_comprehension_zero; [done| |done].
  by apply foldl_dict_set_not_nil.
Qed.

Lemma aggregateMassAbsorption_returns (parsed : dict float) weights absorptions :
  NoDup (keys parsed) -> Float.is_zero (total_mass parsed weights) = false ->
  aggregateMassAbsorption parsed weights absorptions
  = Ok (add_all (values (mass_absorption_contributions parsed weights absorptions)),
        mass_absorption_contributions parsed weights absorptions).
Proof.
  intros Hnd Hz. unfold aggregateMassAbsorption.
  rewrite mass_contributions_split, dict_build_nil by done.
  rewrite dict_comprehension_div; [|done|by rewrite keys_dict_map]. cbn.
  rewrite weighted_total_dict; [done|]. by rewrite !keys_dict_map.
Qed.

(** ** The aggregators: claims *)

(** C4: on the empty mapping both aggregators return the total [0.0] and
    no contribution, and raise nothing; the empty mapping is what the
    parser returns on the empty string and on every string without a
    capital letter, where the two functions of the source return the
    same. *)
Theorem empty_formula_aggregates
    (cross_sections weights absorptions : gmap string float) :
  aggregateCrossSection [] cross_sections = Ok (Float.zero, []) /\
  aggregateMassAbsorption [] weights absorptions = Ok (Float.zero, []) /\
  parse_formula "" = Ok [] /\
  forall (formula : string) (df : properties_table),
    all_chars (fun c => negb (is_upper c)) formula = true ->
    parse_formula formula = Ok [] /\
    calculate_compound_neutron_cross_section formula df = Ok (Float.zero, []) /\
    calculate_compound_neutron_mass_absorption formula df = Ok (Float.zero, []).
Proof.
  split_and!; try reflexivity.
  intros formula df Hlow.
  assert (Hp : parse_formula formula = Ok []).
  { unfold parse_formula. by rewrite findall_no_upper. }
  unfold calculate_compound_neutron_cross_section,
    calculate_compound_neutron_mass_absorption.
  by rewrite Hp.
Qed.

(** C2, as it stands, fails on the empty mapping: its indices sum to
    zero, and [aggregateCrossSection] returns. *)
Lemma empty_formula_does_not_divide :
  ~ (forall (parsed : dict float) (cross_sections : gmap string float),
       Float.is_zero (py_sum (values parsed)) = true ->
       aggregateCrossSection parsed cross_sections = Raise ZeroDivisionError).
Proof. intros H. by specialize (H [] ∅ eq_refl). Qed.

(** C2, amended: on a mapping with at least one element,
    [aggregateCrossSection] raises [ZeroDivisionError] when the indices
    sum to zero, and [aggregateMassAbsorption] raises it when the total
    mass is zero. *)
Theorem aggregates_divide_by_zero
    (parsed : dict float) (cross_sections weights absorptions : gmap string float) :
  parsed <> [] ->
  (Float.is_zero (py_sum (values parsed)) = true ->
   aggregateCrossSection parsed cross_sections = Raise ZeroDivisionError) /\
  (Float.is_zero (total_mass parsed weights) = true ->
   aggregateMassAbsorption parsed weights absorptions = Raise ZeroDivisionError).
Proof.
  intros Hne. split; intros Hz.
  - by apply aggregateCrossSection_zero.
  - by apply aggregateMassAbsorption_zero.
Qed.

Lemma aggregates_divide_by_zero_witness :
  parse_formula "H0" = Ok [("H", Float.zero)] /\
  aggregateCrossSection [("H", Float.zero)] ∅ = Raise ZeroDivisionError /\
  aggregateMassAbsorption [("H", Float.one)] ∅ ∅ = Raise ZeroDivisionError.
Proof.
  split; [reflexivity|]. split.
  - apply (aggregates_divide_by_zero [("H", Float.zero)] ∅ ∅ ∅); done.
  - apply (aggregates_divide_by_zero [("H", Float.one)] ∅ ∅ ∅); done.
Defined.

(** *** A formula with a single element *)

Lemma aggregateCrossSection_single
    (elem : string) (count xs : float) (cross_sections : gmap string float) :
  Float.is_finite_nonzero count = true ->
  cross_sections !! elem = Some xs ->
  Float.valid xs = true -> xs <> S754_zero true ->
  aggregateCrossSection [(elem, count)] cross_sections = Ok (xs, [(elem, xs)]).
Proof.
  intros Hc Hxs Hv Hnz.
  rewrite aggregateCrossSection_returns.
  - unfold cross_section_contributions, atomic_fractions, dict_map, scale,
      py_sum, add_all.
    cbn [fmap list_fmap values map fst snd foldl].
    rewrite Hxs. cbn [default from_option id].
    rewrite (FloatFacts.add_zero_l_finite count Hc).
    destruct count as [| | |s m e]; try discriminate.
    rewrite FloatFacts.div_self, FloatFacts.mul_one_l by done.
    by rewrite FloatFacts.add_zero_l.
  - apply NoDup_singleton.
  - unfold py_sum, add_all. cbn [values map snd foldl].
    rewrite (FloatFacts.add_zero_l_finite count Hc). by destruct count.
Qed.

Lemma aggregateMassAbsorption_single
    (elem : string) (count w ma : float) (weights absorptions : gmap string float) :
  weights !! elem = Some w ->
  Float.is_finite_nonzero (Float.mul count w) = true ->
  absorptions !! elem = Some ma ->
  Float.valid ma = true -> ma <> S754_zero true ->
  aggregateMassAbsorption [(elem, count)] weights absorptions
  = Ok (ma, [(elem, ma)]).
Proof.
  intros Hw Hm Hma Hv Hnz.
  assert (Ht : total_mass [(elem, count)] weights = Float.mul count w).
  { unfold total_mass, add_all, scale. cbn [fmap list_fmap fst snd foldl].
    rewrite Hw. cbn [default from_option id].
    by apply FloatFacts.add_zero_l_finite. }
  rewrite aggregateMassAbsorption_returns.
  - unfold mass_absorption_contributions, mass_fractions. rewrite Ht.
    unfold dict_map, scale, add_all.
    cbn [fmap list_fmap values map fst snd foldl].
    rewrite Hw, Hma. cbn [default from_option id].
    destruct (Float.mul count w) as [| | |s m e]; try discriminate.
    rewrite FloatFacts.div_self, FloatFacts.mul_one_l by done.
    by rewrite FloatFacts.add_zero_l.
  - apply NoDup_singleton.
  - rewrite Ht. by destruct (Float.mul count w).
Qed.

(** C1, as it stands, fails when the mass overflows: in [C1e308], written
    with its 308 zeros, carbon has the finite index [1e308]; with the
    atomic weight [12.011] the mass is infinite, the mass fraction is a
    NaN, and so is the total. *)
Lemma single_element_mass_overflow :
  ~ (forall (formula elem : string) (count xs w ma : float) (df : properties_table),
       parse_formula formula = Ok [(elem, count)] ->
       Float.is_zero count = false ->
       to_dict Neutron_Cross_Section df !! elem = Some xs ->
       to_dict Atomic_weight df !! elem = Some w ->
       to_dict Neutron_Mass_Absorption df !! elem = Some ma ->
       Float.is_zero w = false ->
       (exists contributions,
          calculate_compound_neutron_cross_section formula df
          = Ok (xs, contributions)) /\
       (exists contributions,
          calculate_compound_neutron_mass_absorption formula df
          = Ok (ma, contributions))).
Proof.
  intros H.
  pose (formula := ("C1" ++ string_of_list_ascii (repeat "0"%char 308))%string).
  pose (df := [ {| Symbol := "C";
                   Atomic_weight := Float.of_decimal 12011 3;
                   Neutron_Cross_Section := Float.of_decimal 5551 3;
                   Neutron_Mass_Absorption := Float.of_decimal 2 5 |} ]).
  assert (Hnan : calculate_compound_neutron_mass_absorption formula df
                 = Ok (Float.nan, [("C", Float.nan)]))
    by (vm_compute; reflexivity).
  destruct (H formula "C" (Float.of_decimal (10 ^ 308) 0)
              (Float.of_decimal 5551 3) (Float.of_decimal 12011 3)
              (Float.of_decimal 2 5) df
              ltac:(vm_compute; reflexivity) ltac:(vm_compute; reflexivity)
              ltac:(vm_compute; reflexivity) ltac:(vm_compute; reflexivity)
              ltac:(vm_compute; reflexivity) ltac:(vm_compute; reflexivity))
    as [_ [contributions Hma]].
  rewrite Hnan in Hma. vm_compute in Hma. discriminate Hma.
Qed.

(** C1, amended: when a formula parses to a single element whose index
    is finite and not zero, and the table gives the element a cross
    section, an atomic weight and a mass absorption, the cross-section
    total is exactly the element's cross section; and when the mass (index
    times atomic weight) is itself finite and not zero, the
    mass-absorption total is exactly the element's mass absorption.  The
    reference values are binary64 numbers other than [-0.0]. *)
Theorem single_element_totals
    (formula elem : string) (count xs w ma : float) (df : properties_table) :
  parse_formula formula = Ok [(elem, count)] ->
  Float.is_finite_nonzero count = true ->
  to_dict Neutron_Cross_Section df !! elem = Some xs ->
  to_dict Atomic_weight df !! elem = Some w ->
  to_dict Neutron_Mass_Absorption df !! elem = Some ma ->
  Float.valid xs = true -> xs <> S754_zero true ->
  Float.valid ma = true -> ma <> S754_zero true ->
  calculate_compound_neutron_cross_section formula df = Ok (xs, [(elem, xs)]) /\
  (Float.is_finite_nonzero (Float.mul count w) = true ->
   calculate_compound_neutron_mass_absorption formula df = Ok (ma, [(elem, ma)])).
Proof.
  intros Hp Hc Hxs Hw Hma Hvx Hnx Hvm Hnm.
  unfold calculate_compound_neutron_cross_section,
    calculate_compound_neutron_mass_absorption.
  rewrite Hp. cbn [mbind result_bind]. split.
  - by apply aggregateCrossSection_single.
  - intros Hm. by eapply aggregateMassAbsorption_single.
Qed.

Lemma single_element_totals_witness :
  calculate_compound_neutron_cross_section "Gd2" [gadolinium]
  = Ok (Float.of_decimal 49700 0, [("Gd", Float.of_decimal 49700 0)]) /\
  calculate_compound_neutron_mass_absorption "Gd2" [gadolinium]
  = Ok (Float.of_decimal 1910 1, [("Gd", Float.of_decimal 1910 1)]).
Proof.
  destruct (single_element_totals "Gd2" "Gd" (Float.of_decimal 2 0)
              (Float.of_decimal 49700 0) (Float.of_decimal 15725 2)
              (Float.of_decimal 1910 1) [gadolinium]
              ltac:(vm_compute; reflexivity) ltac:(vm_compute; reflexivity)
              ltac:(vm_compute; reflexivity) ltac:(vm_compute; reflexivity)
              ltac:(vm_compute; reflexivity)
              ltac:(vm_compute; reflexivity)
              (FloatFacts.of_decimal_not_negative_zero _ _)
              ltac:(vm_compute; reflexivity)
              (FloatFacts.of_decimal_not_negative_zero _ _))
    as [Hcs Hma].
  split; [exact Hcs | apply Hma; vm_compute; reflexivity].
Defined.

(** *** An element the table does not have *)




(** ** Validity and the batch *)

Lemma is_valid_formula_parsed (formula : string) (valid : gset string) (d : dict float) :
  parse_formula formula = Ok d ->
  is_valid_formula formula valid = Ok (bool_decide (Forall (.∈ valid) (keys d))).
Proof.
  intros Hp. unfold is_valid_formula. rewrite Hp. cbn [mbind result_bind].
  f_equal. apply bool_decide_ext. rewrite Forall_forall. set_solver.
Qed.

(** C6: [is_valid_formula] returns [True] exactly when the parser returns
    a mapping whose symbols all belong to the set, and [False] exactly
    when it returns a mapping with a symbol outside the set; ["XxY"] is
    not valid for a set without [Xx], whether or not [Y] belongs to
    it. *)
Theorem is_valid_formula_spec (valid : gset string) :
  (forall formula : string,
     (is_valid_formula formula valid = Ok true <->
      exists d, parse_formula formula = Ok d /\
                forall e, e ∈ keys d -> e ∈ valid) /\
     (is_valid_formula formula valid = Ok false <->
      exists d, parse_formula formula = Ok d /\
                exists e, e ∈ keys d /\ e ∉ valid)) /\
  ("Xx" ∉ valid -> is_valid_formula "XxY" valid = Ok false).
Proof.
  assert (Hall : forall formula : string,
    (is_valid_formula formula valid = Ok true <->
      exists d, parse_formula formula = Ok d /\
                forall e, e ∈ keys d -> e ∈ valid) /\
    (is_valid_formula formula valid = Ok false <->
      exists d, parse_formula formula = Ok d /\
                exists e, e ∈ keys d /\ e ∉ valid)).
  { intros formula.
    destruct (parse_formula formula) as [d|e] eqn:Hp.
    - rewrite (is_valid_formula_parsed _ _ _ Hp). split.
      + split.
        * intros [= Hb]. apply bool_decide_eq_true in Hb. exists d.
          split; [done|]. by apply Forall_forall.
        * intros (d' & [= <-] & Hd). f_equal.
          apply bool_decide_eq_true. by apply Forall_forall.
      + split.
        * intros [= Hb]. apply bool_decide_eq_false in Hb. exists d.
          split; [done|].
          apply not_Forall_Exists in Hb; [|apply _].
          apply Exists_exists in Hb as (e & He & Hne). by exists e.
        * intros (d' & [= <-] & e & He & Hne). f_equal.
          apply bool_decide_eq_false. rewrite Forall_forall. intros Hd.
          by apply Hne, Hd.
    - unfold is_valid_formula. rewrite Hp. cbn [mbind result_bind].
      split; (split; [done | by intros (d & ? & _)]). }
  split; [done|].
  intros Hxx. apply Hall. exists [("Xx", Float.one); ("Y", Float.one)].
  split; [reflexivity|]. exists "Xx". split; [by left | done].
Qed.

(** The validity of three formulas over the symbols [H] and [O]. *)
Example is_valid_formula_examples :
  is_valid_formula "H2O" {[ "H"; "O" ]} = Ok true /\
  is_valid_formula "XxY" {[ "H"; "Y" ]} = Ok false /\
  is_valid_formula "" {[ "H"; "O" ]} = Ok true.
Proof. split_and!; vm_compute; reflexivity. Qed.

Lemma plotting_step_valid (df : properties_table) (valid_elements : gset string)
    (data : list plot_row) (formula : string) (cs ma : float * dict float) :
  is_valid_formula formula valid_elements = Ok true ->
  calculate_compound_neutron_cross_section formula df = Ok cs ->
  calculate_compound_neutron_mass_absorption formula df = Ok ma ->
  plotting_step df valid_elements data formula
  = Ok (data ++ [{| Formula := formula;
                    cross_section_total := cs.1;
                    mass_absorption_total := ma.1 |}]).
Proof. intros Hv Hcs Hma. unfold plotting_step. by rewrite Hv, Hcs, Hma. Qed.

Lemma plotting_step_invalid (df : properties_table) (valid_elements : gset string)
    (data : list plot_row) (formula : string) :
  is_valid_formula formula valid_elements = Ok false ->
  plotting_step df valid_elements data formula = Ok data.
Proof. intros Hv. unfold plotting_step. by rewrite Hv. Qed.

Lemma plotting_loop (df : properties_table) (compounds : list string)
    (data : list plot_row) :
  Forall (row_defined df) compounds ->
  exists rows,
    for_each (plotting_step df (symbols df)) compounds data = Ok (data ++ rows) /\
    Formula <$> rows
    = filter (fun f => is_valid_formula f (symbols df) = Ok true) compounds /\
    Forall (is_row_of df) rows.
Proof.
  intros Hdef. revert data.
  induction Hdef as [|formula compounds (valid & Hv & Hagg) _ IH]; intros data.
  - exists []. by rewrite app_nil_r.
  - cbn [for_each]. destruct valid.
    + destruct (Hagg eq_refl) as ([xs c1] & [ma c2] & Hcs & Hma).
      rewrite (plotting_step_valid _ _ _ _ _ _ Hv Hcs Hma).
      cbn [mbind result_bind fst].
      destruct (IH (data ++ [{| Formula := formula;
                                cross_section_total := xs;
                                mass_absorption_total := ma |}]))
        as (rows & Hloop & Hform & Hrows).
      eexists (_ :: rows). rewrite Hloop, <- app_assoc. split; [done|].
      rewrite filter_cons_True by done. rewrite fmap_cons, Hform.
      split; [done|]. constructor; [|done]. by exists c1, c2.
    + rewrite (plotting_step_invalid _ _ _ _ Hv). cbn [mbind result_bind].
      destruct (IH data) as (rows & Hloop & Hform & Hrows).
      exists rows. rewrite filter_cons_False by (cbv beta; congruence). done.
Qed.

(** A turn that raises ends the call with its exception. *)
Lemma plotting_loop_raises (df : properties_table) (compounds : list string)
    (data : list plot_row) :
  ~ Forall (row_defined df) compounds ->
  exists e, for_each (plotting_step df (symbols df)) compounds data = Raise e.
Proof.
  revert data. induction compounds as [|formula compounds IH]; intros data Hn.
  - destruct Hn. constructor.
  - cbn [for_each].
    destruct (plotting_step df (symbols df) data formula) as [data'|e] eqn:Hstep;
      cbn [mbind result_bind]; [|by exists e].
    apply IH. intros Hrest. apply Hn. constructor; [|done].
    unfold plotting_step in Hstep.
    destruct (is_valid_formula formula (symbols df)) as [valid|] eqn:Hv; [|done].
    exists valid. split; [done|]. intros ->. cbn [mbind result_bind] in Hstep.
    destruct (calculate_compound_neutron_cross_section formula df) as [cs|]; [|done].
    destruct (calculate_compound_neutron_mass_absorption formula df) as [ma|]; [|done].
    by exists cs, ma.
Qed.

(** C7, as it stands, fails on a valid formula without atoms: in the
    list of ["H0"], valid, and ["Xx"], not valid, the cross section of
    ["H0"] divides by zero and the call raises instead of returning one
    record. *)
Lemma valid_formula_without_atoms :
  ~ (forall (df : properties_table) (valid invalid : string),
       is_valid_formula valid (symbols df) = Ok true ->
       is_valid_formula invalid (symbols df) = Ok false ->
       exists row,
         create_plotting_dataframe [valid; invalid] df = Ok [row] /\
         Formula row = valid).
Proof.
  intros H.
  destruct (H [ {| Symbol := "H";
                   Atomic_weight := Float.one;
                   Neutron_Cross_Section := Float.of_decimal 33 2;
                   Neutron_Mass_Absorption := Float.of_decimal 2 2 |} ]
              "H0" "Xx"
              ltac:(vm_compute; reflexivity) ltac:(vm_compute; reflexivity))
    as (row & Hrow & _).
  vm_compute in Hrow. discriminate Hrow.
Qed.

(** Once the formula is parsed, the only exception of an aggregator is
    that of its division. *)
Lemma dict_comprehension_raises (d : dict float) (total : float) (e : exn) :
  dict_comprehension (fun x => truediv x total) d = Raise e ->
  e = ZeroDivisionError.
Proof.
  destruct (Float.is_zero total) eqn:Hz.
  - destruct d as [|kv d]; [done|].
    rewrite dict_comprehension_zero by done. congruence.
  - unfold dict_comprehension.
    rewrite (for_each_pure _ (fun c kv => dict_set c kv.1 (Float.div kv.2 total)));
      [done|].
    apply Forall_forall. intros [k x] _ c. unfold truediv. by rewrite Hz.
Qed.

Lemma aggregateCrossSection_raises (parsed : dict float) cross_sections (e : exn) :
  aggregateCrossSection parsed cross_sections = Raise e -> e = ZeroDivisionError.
Proof.
  unfold aggregateCrossSection. cbn zeta.
  destruct (dict_comprehension _ parsed) as [fractions|e'] eqn:Hd;
    cbn [mbind result_bind]; [done|].
  intros [= <-]. by eapply dict_comprehension_raises.
Qed.

Lemma aggregateMassAbsorption_raises (parsed : dict float) weights absorptions
    (e : exn) :
  aggregateMassAbsorption parsed weights absorptions = Raise e ->
  e = ZeroDivisionError.
Proof.
  unfold aggregateMassAbsorption.
  destruct (mass_contributions parsed weights) as [total masses].
  destruct (dict_comprehension _ masses) as [fractions|e'] eqn:Hd;
    cbn [mbind result_bind]; [done|].
  intros [= <-]. by eapply dict_comprehension_raises.
Qed.

(** On formulas that parse, the first turn on which an aggregator divides
    by zero ends the call with [ZeroDivisionError]: the turns before it
    raise nothing else. *)
Lemma plotting_loop_divides (df : properties_table) (compounds : list string)
    (data : list plot_row) :
  Forall (fun formula => exists d, parse_formula formula = Ok d) compounds ->
  Exists (divides_by_zero df) compounds ->
  for_each (plotting_step df (symbols df)) compounds data = Raise ZeroDivisionError.
Proof.
  intros Hp. revert data.
  induction Hp as [|formula compounds [d Hd] _ IH]; intros data Hex.
  - inversion Hex.
  - cbn [for_each].
    pose proof (is_valid_formula_parsed _ (symbols df) _ Hd) as Hv.
    destruct (bool_decide _) in Hv.
    + destruct (calculate_compound_neutron_cross_section formula df)
        as [cs|e] eqn:Hcs.
      * destruct (calculate_compound_neutron_mass_absorption formula df)
          as [ma|e] eqn:Hma.
        -- rewrite (plotting_step_valid _ _ _ _ _ _ Hv Hcs Hma).
           cbn [mbind result_bind]. apply IH.
           apply Exists_cons in Hex as [(_ & [Hz|Hz])|Hex]; [congruence..|done].
        -- unfold plotting_step. rewrite Hv, Hcs, Hma. cbn [mbind result_bind].
           unfold calculate_compound_neutron_mass_absorption in Hma.
           rewrite Hd in Hma. cbn [mbind result_bind] in Hma.
           by rewrite (aggregateMassAbsorption_raises _ _ _ _ Hma).
      * unfold plotting_step. rewrite Hv, Hcs. cbn [mbind result_bind].
        unfold calculate_compound_neutron_cross_section in Hcs.
        rewrite Hd in Hcs. cbn [mbind result_bind] in Hcs.
        by rewrite (aggregateCrossSection_raises _ _ _ Hcs).
    + rewrite (plotting_step_invalid _ _ _ _ Hv). cbn [mbind result_bind].
      apply IH. apply Exists_cons in Hex as [(Hv' & _)|Hex]; [congruence|done].
Qed.

(** C7, amended: when every formula of the sequence parses and both
    aggregators return on each valid one, [create_plotting_dataframe]
    returns one record per valid formula, in the order of the sequence,
    each with the formula and its two totals, and nothing for the
    formulas that are not valid.  When every formula parses and an
    aggregator divides by zero on a valid one, the call raises
    [ZeroDivisionError] and returns no record. *)
Theorem create_plotting_dataframe_rows
    (compounds : list string) (df : properties_table) :
  (Forall (row_defined df) compounds ->
   exists rows,
     create_plotting_dataframe compounds df = Ok rows /\
     Formula <$> rows
     = filter (fun f => is_valid_formula f (symbols df) = Ok true) compounds /\
     Forall (is_row_of df) rows) /\
  (Forall (fun formula => exists d, parse_formula formula = Ok d) compounds ->
   Exists (divides_by_zero df) compounds ->
   create_plotting_dataframe compounds df = Raise ZeroDivisionError).
Proof.
  split.
  - intros Hdef. by apply (plotting_loop df compounds []).
  - apply plotting_loop_divides.
Qed.

Ltac row_defined_by_evaluation :=
  eexists; split;
  [ vm_compute; reflexivity
  | first [ discriminate
          | intros _; eexists _, _; split; vm_compute; reflexivity ] ].

Lemma create_plotting_dataframe_rows_witness :
  (exists rows,
     create_plotting_dataframe ["H2O"; "XxO"] water_table = Ok rows /\
     Formula <$> rows = ["H2O"] /\
     Forall (is_row_of water_table) rows) /\
  create_plotting_dataframe ["H2O"; "H0"; "XxO"] water_table
  = Raise ZeroDivisionError.
Proof.
  split.
  - apply (proj1 (create_plotting_dataframe_rows ["H2O"; "XxO"] water_table)).
    repeat constructor; row_defined_by_evaluation.
  - apply (proj2 (create_plotting_dataframe_rows ["H2O"; "H0"; "XxO"] water_table)).
    + repeat constructor; eexists; vm_compute; reflexivity.
    + apply Exists_cons_tl, Exists_cons_hd. split; [|left]; vm_compute; reflexivity.
Defined.

(** A formula that does not parse ends the call with the exception of
    the parser, also when a later formula would divide by zero. *)
Example create_plotting_dataframe_first_exception :
  create_plotting_dataframe ["H."; "H0"] water_table = Raise ValueError /\
  create_plotting_dataframe ["H0"; "H."] water_table = Raise ZeroDivisionError.
Proof. split; vm_compute; reflexivity. Qed.

(** ** Worked examples *)

(** The mappings of three formulas; [2.0] is [2^52 * 2^-51] and [3.0] is
    [1.5 * 2^52 * 2^-51]. *)
Example parse_formula_examples :
  parse_formula "H2O"
  = Ok [("H", S754_finite false 4503599627370496 (-51)); ("O", Float.one)] /\
  parse_formula "GdGd2" = Ok [("Gd", S754_finite false 6755399441055744 (-51))] /\
  parse_formula "Fe.5Ni" = Ok [("Fe", Float.of_decimal 5 1); ("Ni", Float.one)] /\
  parse_formula "h2o" = Ok [].
Proof. split_and!; vm_compute; reflexivity. Qed.

(** Water over [water_table]: the cross section lies between 0.22003 and
    0.22004, the mass absorption between 0.002311 and 0.002312. *)
Example water_totals :
  exists cs ma c1 c2,
    calculate_compound_neutron_cross_section "H2O" water_table = Ok (cs, c1) /\
    calculate_compound_neutron_mass_absorption "H2O" water_table = Ok (ma, c2) /\
    Float.ltb (Float.of_decimal 22003 5) cs = true /\
    Float.ltb cs (Float.of_decimal 22004 5) = true /\
    Float.ltb (Float.of_decimal 2311 6) ma = true /\
    Float.ltb ma (Float.of_decimal 2312 6) = true.
Proof.
  eexists _, _, _, _. split_and!; [vm_compute; reflexivity..| | | |];
    vm_compute; reflexivity.
Qed.

(** * Further properties *)

(** ** Signs *)

Module FloatSign.

Lemma shr_1_nonneg (mrs : shr_record) : 0 <= shr_m mrs -> 0 <= shr_m (shr_1 mrs).
Proof. destruct mrs as [[|[p|p|]|p] r s]; cbn; lia. Qed.

Lemma iter_shr_nonneg (p : positive) (mrs : shr_record) :
  0 <= shr_m mrs -> 0 <= shr_m (SpecFloat.iter_pos shr_1 p mrs).
Proof.
  revert mrs. induction p as [p IH|p IH|]; intros mrs H; cbn.
  - by apply IH, IH, shr_1_nonneg.
  - by apply IH, IH.
  - by apply shr_1_nonneg.
Qed.

Lemma shr_fexp_nonneg (m e : Z) (l : location) :
  0 <= m -> 0 <= shr_m (shr_fexp Float.prec Float.emax m e l).1.
Proof.
  intros Hm. unfold shr_fexp, shr.
  assert (H0 : 0 <= shr_m (shr_record_of_loc m l)) by (by destruct l as [|[]]).
  destruct (fexp _ _ _ - e) as [|p|p]; cbn [fst]; [done| |done].
  by apply iter_shr_nonneg.
Qed.

Lemma round_nearest_even_nonneg (m : Z) (l : location) :
  0 <= m -> 0 <= round_nearest_even m l.
Proof.
  intros Hm. destruct l as [|[]]; cbn; [done| |done|lia].
  destruct (Z.even m); lia.
Qed.

(** Rounding a magnitude with a clear sign bit gives no negative number
    and no NaN. *)
Lemma round_aux_nonneg (m e : Z) (l : location) :
  0 <= m -> Float.nonneg (binary_round_aux Float.prec Float.emax false m e l) = true.
Proof.
  intros Hm. unfold binary_round_aux.
  pose proof (shr_fexp_nonneg m e l Hm) as H1.
  destruct (shr_fexp _ _ m e l) as [mrs' e']. cbn [fst] in H1.
  pose proof (shr_fexp_nonneg _ e' loc_Exact
                (round_nearest_even_nonneg _ (loc_of_shr_record mrs') H1)) as H2.
  destruct (shr_fexp _ _ _ e' loc_Exact) as [mrs'' e'']. cbn [fst] in H2.
  destruct (shr_m mrs'') as [|p|p]; [done| |lia].
  by destruct (Z.leb e'' _).
Qed.

Lemma of_decimal_nonneg (n : Z) (k : nat) : Float.nonneg (Float.of_decimal n k) = true.
Proof.
  destruct n as [|p|p]; try done.
  unfold Float.of_decimal, SFdiv, SFdiv_core_binary.
  set (m' := match _ with 0 => Z.pos p | Z.pos _ => _ | Z.neg _ => 0 end).
  assert (Hm' : 0 <= m').
  { subst m'. destruct (_ - _ - _) as [|q|q]; [lia| |lia].
    apply Z.shiftl_nonneg. lia. }
  pose proof (Z.div_pos m' (Z.pos (Float.pow10 k)) Hm' ltac:(lia)) as Hq.
  unfold Z.div in Hq. change IntDef.Z.div_eucl with Z.div_eucl.
  destruct (Z.div_eucl m' _) as [q r]. cbn [fst] in Hq.
  by apply round_aux_nonneg.
Qed.

(** The sum of two numbers with clear sign bits has a clear sign bit. *)
Lemma add_nonneg (x y : float) :
  Float.nonneg x = true -> Float.nonneg y = true ->
  Float.nonneg (Float.add x y) = true.
Proof.
  destruct x as [[]|[]| |[] mx ex], y as [[]|[]| |[] my ey]; try done.
  intros _ _. unfold Float.add, SFadd, binary_normalize. cbn [cond_Zopp].
  change (Z.pos ?a + Z.pos ?b) with (Z.pos (a + b)).
  unfold binary_round.
  destruct (shl_align _ _ _) as [mz ez].
  apply round_aux_nonneg. lia.
Qed.

End FloatSign.

(** ** More on the parser *)

Lemma for_each_app {A S} (body : S -> A -> result S) (l1 l2 : list A) (s : S) :
  for_each body (l1 ++ l2) s = (s' ← for_each body l1 s; for_each body l2 s').
Proof.
  revert s. induction l1 as [|a l1 IH]; intros s; [done|].
  cbn. destruct (body s a) as [s'|e]; cbn; [apply IH | done].
Qed.

Lemma parse_formula_Ok_inv (formula : string) (d : dict float) :
  parse_formula formula = Ok d ->
  Forall has_index (findall formula) /\ d = accumulate (findall formula) [].
Proof.
  intros Hp.
  destruct (decide (Forall has_index (findall formula))) as [Hi|Hn].
  - rewrite parse_formula_returns in Hp by done. by injection Hp as <-.
  - by rewrite parse_formula_raises in Hp.
Qed.

Lemma token_index_nonneg (count : string) (x : float) :
  token_index count = Ok x -> Float.nonneg x = true.
Proof.
  destruct count as [|c count]; [by intros [= <-]|].
  unfold token_index, py_float.
  destruct (span is_digit _) as [ip r]. destruct (opt_dot r) as [dot r'].
  destruct (span is_digit r') as [fp r''].
  destruct r''; [|done]. destruct (ip ++ fp)%string; [done|].
  intros [= <-]. apply FloatSign.of_decimal_nonneg.
Qed.

Lemma values_dict_set {V} (P : V -> Prop) (d : dict V) (k : string) (v : V) :
  Forall P (values d) -> P v -> Forall P (values (dict_set d k v)).
Proof.
  intros Hd Hv. induction d as [|[k0 v0] d IH]; cbn.
  - by constructor.
  - apply Forall_cons in Hd as [H0 Hd].
    destruct (k0 =? k)%string; cbn; constructor; auto.
Qed.

Lemma dict_get_values {V} (P : V -> Prop) (d : dict V) (k : string) (v : V) :
  Forall P (values d) -> dict_get d k = Some v -> P v.
Proof.
  induction d as [|[k0 v0] d IH]; cbn; [done|].
  intros [H0 Hd]%Forall_cons. destruct (k0 =? k)%string; [by intros [= <-] | auto].
Qed.

Lemma parse_tokens_nonneg (toks : list (string * string)) (d d' : dict float) :
  Forall (fun x => Float.nonneg x = true) (values d) ->
  parse_tokens toks d = Ok d' ->
  Forall (fun x => Float.nonneg x = true) (values d').
Proof.
  revert d. induction toks as [|[elem count] toks IH]; intros d Hd.
  - by intros [= <-].
  - unfold parse_tokens. cbn [for_each parse_step].
    destruct (token_index count) as [x|e] eqn:Hx; [|done].
    cbn [mbind result_bind]. apply IH.
    apply values_dict_set; [done|].
    apply FloatSign.add_nonneg; [|by eapply token_index_nonneg].
    destruct (dict_get d elem) as [y|] eqn:Hy; [|done].
    by eapply (dict_get_values (fun x => Float.nonneg x = true)).
Qed.

(** X1: no index of a parsed mapping is negative or a NaN: each is
    [0.0], a positive number or the positive infinity. *)
Theorem parse_formula_nonneg (formula : string) (d : dict float) :
  parse_formula formula = Ok d ->
  Forall (fun x => Float.nonneg x = true) (values d).
Proof. apply parse_tokens_nonneg. constructor. Qed.

Lemma parse_formula_nonneg_witness :
  Forall (fun x => Float.nonneg x = true)
    (values [("H", Float.of_decimal 2 0); ("O", Float.one)]).
Proof.
  apply (parse_formula_nonneg "H2O"). vm_compute. reflexivity.
Defined.

Lemma filter_filter_implied {A} (P Q : A -> Prop)
    `{!forall x, Decision (P x)} `{!forall x, Decision (Q x)} (l : list A) :
  (forall x, P x -> Q x) -> filter P (filter Q l) = filter P l.
Proof.
  intros HPQ. induction l as [|x l IH]; [done|].
  destruct (decide (Q x)) as [Hq|Hq].
  - rewrite (filter_cons_True Q) by done.
    destruct (decide (P x)).
    + rewrite !(filter_cons_True P) by done. by rewrite IH.
    + by rewrite !(filter_cons_False P) by done.
  - rewrite (filter_cons_False Q) by done.
    rewrite (filter_cons_False P) by (intros Hp; by apply Hq, HPQ). done.
Qed.

Lemma filter_all {A} (P : A -> Prop) `{!forall x, Decision (P x)} (l : list A) :
  (forall x, P x) -> filter P l = l.
Proof.
  intros HP. induction l as [|x l IH]; [done|].
  rewrite filter_cons_True by done. by rewrite IH.
Qed.

Lemma accumulate_keys (toks : list (string * string)) (d : dict float) :
  keys (accumulate toks d)
  = keys d ++ filter (fun y => y ∉ keys d) (first_seen toks.*1).
Proof.
  revert d. induction toks as [|[e c] toks IH]; intros d.
  - cbn. by rewrite app_nil_r.
  - rewrite accumulate_cons, IH. cbn [fst snd fmap list_fmap first_seen].
    unfold add_index. rewrite keys_dict_set.
    destruct (decide (e ∈ keys d)) as [Hin|Hout].
    + rewrite filter_cons_False by (intros H; by apply H).
      f_equal. symmetry. apply filter_filter_implied. intros y Hy ->. done.
    + rewrite filter_cons_True by done. rewrite <- app_assoc. cbn. do 2 f_equal.
      rewrite list_filter_filter. apply list_filter_iff. intros y.
      rewrite not_elem_of_app, list_elem_of_singleton. done.
Qed.

(** X2: the keys of a parsed mapping are the symbols the pattern matched,
    each once, in the order of their first match. *)
Theorem parse_formula_keys (formula : string) (d : dict float) :
  parse_formula formula = Ok d ->
  keys d = first_seen (findall formula).*1.
Proof.
  intros [_ ->]%parse_formula_Ok_inv. rewrite accumulate_keys. cbn.
  apply filter_all. intros y. apply not_elem_of_nil.
Qed.

Lemma parse_formula_keys_witness :
  keys [("H", Float.of_decimal 3 0); ("O", Float.one)] = ["H"; "O"].
Proof.
  apply (parse_formula_keys "HOH2"). vm_compute. reflexivity.
Defined.

(** *** Text the pattern does not match *)

Lemma findall_skip_prefix (junk s : string) :
  all_chars (fun c => negb (is_upper c)) junk = true ->
  findall (junk ++ s)%string = findall s.
Proof.
  induction junk as [|c junk IH]; [done|]. cbn [all_chars].
  intros [Hc Hj]%andb_prop. apply negb_true_iff in Hc.
  rewrite string_app_cons, findall_skip; [by apply IH|]. cbn. by rewrite Hc.
Qed.

(** X3: text without a capital letter in front of a formula is skipped:
    it changes neither the mapping nor the exception. *)
Theorem parse_formula_skips_prefix (junk formula : string) :
  all_chars (fun c => negb (is_upper c)) junk = true ->
  parse_formula (junk ++ formula)%string = parse_formula formula.
Proof. intros Hj. unfold parse_formula. by rewrite findall_skip_prefix. Qed.

Lemma parse_formula_skips_prefix_witness :
  parse_formula "2 (H2O" = parse_formula "H2O".
Proof.
  apply (parse_formula_skips_prefix "2 (" "H2O"). vm_compute. reflexivity.
Defined.

(** *** Formulas side by side *)

Lemma upper_not_lower (c : ascii) : is_upper c = true -> is_lower c = false.
Proof.
  unfold is_lower, is_upper.
  rewrite andb_true_iff, andb_false_iff, !N.leb_le, !N.leb_gt. lia.
Qed.

Lemma upper_not_digit (c : ascii) : is_upper c = true -> is_digit c = false.
Proof.
  unfold is_digit, is_upper.
  rewrite andb_true_iff, andb_false_iff, !N.leb_le, !N.leb_gt. lia.
Qed.

Lemma span_app_stops (p : ascii -> bool) (a b x y : string) :
  span p a = (x, y) -> stops p b -> span p (a ++ b)%string = (x, (y ++ b)%string).
Proof.
  intros Ha Hb. revert x y Ha. induction a as [|c a IH]; intros x y; cbn [span].
  - intros [= <- <-]. rewrite !string_app_nil_l.
    destruct b as [|c b]; [done|]. cbn in *. by rewrite Hb.
  - rewrite string_app_cons. cbn [span]. destruct (p c).
    + destruct (span p a) as [x' y']. intros [= <- <-].
      by rewrite (IH x' y' eq_refl).
    + intros [= <- <-]. by rewrite string_app_cons.
Qed.

Lemma opt_dot_app_upper (a dot r : string) (c : ascii) (b : string) :
  opt_dot a = (dot, r) -> is_upper c = true ->
  opt_dot (a ++ String c b)%string = (dot, (r ++ String c b)%string).
Proof.
  intros Ha Hc. destruct a as [|d a].
  - injection Ha as <- <-. rewrite !string_app_nil_l. cbn.
    destruct (Ascii.eqb c ".") eqn:E.
    + apply Ascii.eqb_eq in E as ->. discriminate Hc.
    + destruct c as [[] [] [] [] [] [] [] []]; try discriminate; done.
  - rewrite string_app_cons. cbn in *.
    destruct (Ascii.eqb d ".") eqn:E.
    + apply Ascii.eqb_eq in E as ->. by injection Ha as <- <-.
    + destruct d as [[] [] [] [] [] [] [] []]; try discriminate;
        by injection Ha as <- <-.
Qed.

(** A match does not reach over a capital letter. *)
Lemma match_token_app_upper (a rest : string) (tok : string * string)
    (c : ascii) (b : string) :
  is_upper c = true -> match_token a = Some (tok, rest) ->
  match_token (a ++ String c b)%string = Some (tok, (rest ++ String c b)%string).
Proof.
  intros Hc. destruct a as [|c0 s1]; [done|].
  rewrite string_app_cons. cbn [match_token].
  destruct (is_upper c0); [|done].
  destruct (span is_lower s1) as [lows s2] eqn:H1.
  destruct (span is_digit s2) as [ds1 s3] eqn:H2.
  destruct (opt_dot s3) as [dot s4] eqn:H3.
  destruct (span is_digit s4) as [ds2 s5] eqn:H4.
  intros [= <- <-].
  rewrite (span_app_stops _ _ _ _ _ H1) by (by apply upper_not_lower).
  rewrite (span_app_stops _ _ _ _ _ H2) by (by apply upper_not_digit).
  rewrite (opt_dot_app_upper _ _ _ _ _ H3 Hc).
  by rewrite (span_app_stops _ _ _ _ _ H4) by (by apply upper_not_digit).
Qed.

Lemma match_token_None (c : ascii) (s : string) :
  match_token (String c s) = None <-> is_upper c = false.
Proof.
  cbn [match_token]. destruct (is_upper c); [|done].
  destruct (span is_lower s) as [lows s2].
  destruct (span is_digit s2) as [ds1 s3].
  destruct (opt_dot s3) as [dot s4].
  by destruct (span is_digit s4) as [ds2 s5].
Qed.

Lemma findall_app_upper (a : string) (c : ascii) (b : string) :
  is_upper c = true ->
  findall (a ++ String c b)%string = findall a ++ findall (String c b).
Proof.
  intros Hc. remember (String.length a) as n eqn:Hn. revert a Hn.
  induction n as [n IH] using lt_wf_ind. intros a ->.
  destruct a as [|c0 a]; [done|].
  destruct (match_token (String c0 a)) as [[tok rest]|] eqn:Hm.
  - rewrite (findall_match _ _ _ (match_token_app_upper _ _ _ c b Hc Hm)).
    rewrite (findall_match _ _ _ Hm). cbn [app]. f_equal.
    eapply IH; [|done]. by apply match_token_shorter in Hm.
  - rewrite (findall_skip _ _ Hm). rewrite string_app_cons, findall_skip.
    + eapply IH; [|done]. cbn. lia.
    + apply match_token_None. by apply match_token_None in Hm.
Qed.

(** X4: a text followed by a formula that starts with a capital letter
    is parsed as the text first and the formula after it, into the same
    mapping: the first exception of the two is the exception of the
    whole. *)
Theorem parse_formula_app (a : string) (c : ascii) (b : string) :
  is_upper c = true ->
  parse_formula (a ++ String c b)%string
  = (d ← parse_formula a; parse_tokens (findall (String c b)) d).
Proof.
  intros Hc. unfold parse_formula, parse_tokens.
  by rewrite findall_app_upper, for_each_app.
Qed.

Lemma parse_formula_app_witness :
  parse_formula "Gd0.5Zr0.5"
  = (d ← parse_formula "Gd0.5"; parse_tokens (findall "Zr0.5") d).
Proof. apply (parse_formula_app "Gd0.5" "Z" "r0.5"). reflexivity. Defined.

(** *** A point after the digits *)

Lemma match_token_symbol_digits_point (c : ascii) (lows ds : string) :
  is_upper c = true -> all_chars is_lower lows = true ->
  all_chars is_digit ds = true -> ds <> "" ->
  match_token (String c lows ++ ds ++ ".")%string
  = Some ((String c lows, (ds ++ ".")%string), "").
Proof.
  intros Hc Hlows Hds Hne. rewrite string_app_cons. cbn [match_token]. rewrite Hc.
  rewrite (span_app is_lower lows (ds ++ ".") Hlows).
  2:{ destruct ds as [|d ds]; [done|]. cbn in *.
      apply andb_prop in Hds as [Hd _]. by apply digit_not_lower. }
  by rewrite (span_app is_digit ds "." Hds).
Qed.

Lemma py_float_digits_point (ds : string) :
  all_chars is_digit ds = true -> ds <> "" ->
  py_float (ds ++ ".") = py_float ds.
Proof.
  intros Hds Hne. rewrite (py_float_digits ds Hds Hne). unfold py_float.
  rewrite (span_app is_digit ds "." Hds) by done. cbn.
  rewrite string_app_nil_r. by destruct ds.
Qed.

(** X5: a point after the digits of the only token changes nothing:
    a symbol followed by digits and a point parses like the symbol
    followed by the digits. *)
Theorem parse_formula_trailing_point (c : ascii) (lows digits : string) :
  is_upper c = true -> all_chars is_lower lows = true ->
  all_chars is_digit digits = true -> digits <> "" ->
  parse_formula (String c lows ++ digits ++ ".")%string
  = parse_formula (String c lows ++ digits)%string.
Proof.
  intros Hc Hlows Hds Hne. unfold parse_formula.
  rewrite (findall_match _ _ _
             (match_token_symbol_digits_point c lows digits Hc Hlows Hds Hne)).
  rewrite (findall_match _ _ _
             (match_token_symbol_digits c lows digits Hc Hlows Hds)).
  unfold parse_tokens. cbn [for_each parse_step].
  assert (token_index (digits ++ ".") = token_index digits) as ->; [|done].
  destruct digits as [|d digits]; [done|].
  apply (py_float_digits_point (String d digits)); done.
Qed.

Lemma parse_formula_trailing_point_witness :
  parse_formula "Gd3." = parse_formula "Gd3".
Proof.
  apply (parse_formula_trailing_point "G" "d" "3"); by_evaluation.
Defined.

(** ** The property table *)

Lemma to_dict_lookup_from (column : element_row -> float) (df : list element_row)
    (m : gmap string float) (e : string) :
  foldl (fun m row => <[Symbol row := column row]> m) m df !! e
  = match last (filter (fun row => Symbol row = e) df) with
    | Some row => Some (column row)
    | None => m !! e
    end.
Proof.
  revert m. induction df as [|row df IH]; intros m; [done|].
  cbn [foldl]. rewrite IH.
  destruct (decide (Symbol row = e)) as [<-|Hne].
  - rewrite filter_cons_True by done. rewrite last_cons, lookup_insert_eq.
    by destruct (last _).
  - rewrite filter_cons_False by done. by rewrite lookup_insert_ne.
Qed.

(** X6: a column dictionary gives a symbol the value of the last row of
    the table with that symbol, and nothing when the table has no such
    row. *)
Theorem to_dict_last_row (column : element_row -> float) (df : list element_row)
    (e : string) :
  to_dict column df !! e
  = column <$> last (filter (fun row => Symbol row = e) df).
Proof.
  unfold to_dict. rewrite to_dict_lookup_from, lookup_empty.
  by destruct (last _).
Qed.

Lemma to_dict_is_Some (column : element_row -> float) (df : list element_row)
    (e : string) :
  e ∈ symbols df -> is_Some (to_dict column df !! e).
Proof.
  unfold symbols. rewrite elem_of_list_to_set, list_elem_of_fmap.
  intros (row & -> & Hrow). unfold to_dict. rewrite to_dict_lookup_from.
  destruct (last _) as [row'|] eqn:Hlast; [done|].
  assert (Hsome : is_Some (last (filter (fun r => Symbol r = Symbol row) df))).
  { apply last_is_Some. intros Hnil.
    eapply (filter_nil_not_elem_of _ _ row); done. }
  rewrite Hlast in Hsome. by destruct Hsome.
Qed.

(** X7: for a valid formula every element is found in every column
    dictionary of the table: the default [0] of the aggregators is not
    used. *)
Theorem valid_formula_lookups (formula : string) (df : properties_table) :
  is_valid_formula formula (symbols df) = Ok true ->
  exists d,
    parse_formula formula = Ok d /\
    forall (e : string) (column : element_row -> float),
      e ∈ keys d -> is_Some (to_dict column df !! e).
Proof.
  intros Hv. destruct (parse_formula formula) as [d|err] eqn:Hp.
  - exists d. split; [done|]. intros e column He.
    rewrite (is_valid_formula_parsed _ _ _ Hp) in Hv. injection Hv as Hv.
    apply bool_decide_eq_true in Hv. rewrite Forall_forall in Hv.
    by apply to_dict_is_Some, Hv.
  - unfold is_valid_formula in Hv. by rewrite Hp in Hv.
Qed.

Lemma valid_formula_lookups_witness :
  exists d,
    parse_formula "H2O" = Ok d /\
    forall (e : string) (column : element_row -> float),
      e ∈ keys d -> is_Some (to_dict column water_table !! e).
Proof.
  apply (valid_formula_lookups "H2O" water_table). vm_compute. reflexivity.
Defined.

(** ** [filter_compounds] *)

Lemma is_valid_formula_returns (formula : string) (valid : gset string) :
  Forall has_index (findall formula) ->
  exists b, is_valid_formula formula valid = Ok b.
Proof.
  intros Hi. eexists.
  by apply is_valid_formula_parsed, parse_formula_returns.
Qed.

Lemma is_valid_formula_raises (formula : string) (valid : gset string) :
  ~ Forall has_index (findall formula) ->
  is_valid_formula formula valid = Raise ValueError.
Proof.
  intros Hn. unfold is_valid_formula. by rewrite parse_formula_raises.
Qed.

Lemma is_valid_formula_Ok_inv (formula : string) (valid : gset string) (b : bool) :
  is_valid_formula formula valid = Ok b -> Forall has_index (findall formula).
Proof.
  intros Hv. destruct (decide (Forall has_index (findall formula))); [done|].
  by rewrite is_valid_formula_raises in Hv.
Qed.

Lemma filter_compounds_cons {R} (row : string * R) (rows : list (string * R))
    (df : properties_table) :
  filter_compounds (row :: rows) df
  = (keep ← is_valid_formula row.1 (symbols df);
     kept ← filter_compounds rows df;
     Ok (if (keep : bool) then row :: kept else kept)).
Proof.
  unfold filter_compounds. cbn.
  destruct (is_valid_formula row.1 (symbols df)) as [keep|]; cbn; [|done].
  by destruct (series_apply _ _) as [mask|].
Qed.

Lemma filter_compounds_returns {R} (rows : list (string * R)) (df : properties_table) :
  Forall row_parses rows ->
  filter_compounds rows df
  = Ok (filter (fun row => is_valid_formula row.1 (symbols df) = Ok true) rows).
Proof.
  induction 1 as [|row rows Hrow _ IH]; [done|].
  rewrite filter_compounds_cons, IH.
  destruct (is_valid_formula_returns _ (symbols df) Hrow) as [[] Hb];
    rewrite Hb; cbn [mbind result_bind].
  - by rewrite filter_cons_True.
  - rewrite filter_cons_False; [done|]. cbv beta. congruence.
Qed.

Lemma filter_compounds_raises {R} (rows : list (string * R)) (df : properties_table) :
  ~ Forall row_parses rows -> filter_compounds rows df = Raise ValueError.
Proof.
  induction rows as [|row rows IH]; intros Hn.
  - destruct Hn. constructor.
  - rewrite filter_compounds_cons.
    destruct (decide (row_parses row)) as [Hrow|Hrow].
    + destruct (is_valid_formula_returns _ (symbols df) Hrow) as [b ->].
      cbn [mbind result_bind]. rewrite IH; [done|].
      intros Hrows. apply Hn. by constructor.
    + by rewrite is_valid_formula_raises.
Qed.

Lemma filter_compounds_Ok_inv {R} (rows kept : list (string * R))
    (df : properties_table) :
  filter_compounds rows df = Ok kept ->
  Forall row_parses rows /\
  kept = filter (fun row => is_valid_formula row.1 (symbols df) = Ok true) rows.
Proof.
  intros Hf. destruct (decide (Forall row_parses rows)) as [Hp|Hn].
  - rewrite filter_compounds_returns in Hf by done. by injection Hf as <-.
  - by rewrite filter_compounds_raises in Hf.
Qed.

(** X8: on a table whose formula cells are strings, [filter_compounds]
    raises [ValueError] as soon as one formula of the table, valid or not,
    has a token with a lone point; when every formula parses it returns,
    in their order, exactly the rows whose formula is valid. *)
Theorem filter_compounds_outcome {R} (rows : list (string * R))
    (df : properties_table) :
  (Forall row_parses rows ->
   filter_compounds rows df
   = Ok (filter (fun row => is_valid_formula row.1 (symbols df) = Ok true) rows))
  /\
  (~ Forall row_parses rows -> filter_compounds rows df = Raise ValueError).
Proof. split; [apply filter_compounds_returns | apply filter_compounds_raises]. Qed.

(** X9: filtering twice is filtering once: on its own result
    [filter_compounds] returns the result unchanged. *)
Theorem filter_compounds_idempotent {R} (rows kept : list (string * R))
    (df : properties_table) :
  filter_compounds rows df = Ok kept -> filter_compounds kept df = Ok kept.
Proof.
  intros [Hp ->]%filter_compounds_Ok_inv.
  rewrite filter_compounds_returns.
  - f_equal. by apply filter_filter_implied.
  - apply Forall_forall. intros row [_ Hin]%list_elem_of_filter.
    rewrite Forall_forall in Hp. by apply Hp.
Qed.

Lemma filter_compounds_idempotent_witness :
  filter_compounds [("H2O", 1%nat); ("O2", 3%nat)] water_table
  = Ok [("H2O", 1%nat); ("O2", 3%nat)].
Proof.
  apply (filter_compounds_idempotent
           [("H2O", 1%nat); ("XxO", 2%nat); ("O2", 3%nat)]).
  vm_compute. reflexivity.
Defined.

Lemma plotting_loop_filtered {R} (rows : list (string * R)) (df : properties_table)
    (data : list plot_row) :
  Forall row_parses rows ->
  for_each (plotting_step df (symbols df))
    (filter (fun row => is_valid_formula row.1 (symbols df) = Ok true) rows).*1 data
  = for_each (plotting_step df (symbols df)) rows.*1 data.
Proof.
  intros Hp. revert data. induction Hp as [|row rows Hrow _ IH]; intros data; [done|].
  destruct (is_valid_formula_returns _ (symbols df) Hrow) as [[] Hb].
  - rewrite filter_cons_True by done. cbn [fmap list_fmap for_each].
    destruct (plotting_step _ _ data row.1); cbn [mbind result_bind]; [apply IH|done].
  - rewrite filter_cons_False by (cbv beta; congruence).
    cbn [fmap list_fmap for_each].
    rewrite (plotting_step_invalid _ _ _ _ Hb). cbn [mbind result_bind]. apply IH.
Qed.

(** X10: filtering the compounds first does not change the batch: on the
    formulas [filter_compounds] keeps, [create_plotting_dataframe] returns
    or raises what it does on all the formulas. *)
Theorem create_plotting_dataframe_after_filter {R}
    (rows kept : list (string * R)) (df : properties_table) :
  filter_compounds rows df = Ok kept ->
  create_plotting_dataframe kept.*1 df = create_plotting_dataframe rows.*1 df.
Proof.
  intros [Hp ->]%filter_compounds_Ok_inv. by apply plotting_loop_filtered.
Qed.

Lemma create_plotting_dataframe_after_filter_witness :
  create_plotting_dataframe ["H2O"; "O2"] water_table
  = create_plotting_dataframe ["H2O"; "XxO"; "O2"] water_table.
Proof.
  apply (create_plotting_dataframe_after_filter
           [("H2O", tt); ("XxO", tt); ("O2", tt)] [("H2O", tt); ("O2", tt)]).
  vm_compute. reflexivity.
Defined.

Lemma plotting_loop_inv (df : properties_table) (compounds : list string)
    (data data' : list plot_row) :
  for_each (plotting_step df (symbols df)) compounds data = Ok data' ->
  Forall (row_defined df) compounds.
Proof.
  revert data. induction compounds as [|formula compounds IH]; intros data Hloop.
  - constructor.
  - cbn [for_each] in Hloop.
    destruct (plotting_step df (symbols df) data formula) as [data1|] eqn:Hstep;
      [|done].
    cbn [mbind result_bind] in Hloop. constructor; [|by eapply IH].
    unfold plotting_step in Hstep.
    destruct (is_valid_formula formula (symbols df)) as [valid|] eqn:Hv; [|done].
    exists valid. split; [done|]. intros ->. cbn [mbind result_bind] in Hstep.
    destruct (calculate_compound_neutron_cross_section formula df) as [cs|]; [|done].
    destruct (calculate_compound_neutron_mass_absorption formula df) as [ma|]; [|done].
    by exists cs, ma.
Qed.

Lemma filter_valid_fst {R} (rows : list (string * R)) (df : properties_table) :
  (filter (fun row => is_valid_formula row.1 (symbols df) = Ok true) rows).*1
  = filter (fun f => is_valid_formula f (symbols df) = Ok true) rows.*1.
Proof.
  induction rows as [|row rows IH]; [done|]. cbn [fmap list_fmap].
  destruct (decide (is_valid_formula row.1 (symbols df) = Ok true)).
  - rewrite !filter_cons_True by done. cbn. by rewrite <- IH.
  - by rewrite !filter_cons_False by done.
Qed.

(** X11: when [create_plotting_dataframe] returns on the formulas of a
    compounds table, [filter_compounds] returns on the table, and the
    formulas of the rows it keeps are, in order, the formulas of the
    records. *)
Theorem create_plotting_dataframe_formulas {R}
    (rows : list (string * R)) (df : properties_table) (data : list plot_row) :
  create_plotting_dataframe rows.*1 df = Ok data ->
  exists kept,
    filter_compounds rows df = Ok kept /\ kept.*1 = Formula <$> data.
Proof.
  intros Hb. pose proof (plotting_loop_inv _ _ _ _ Hb) as Hdef.
  destruct (plotting_loop df rows.*1 [] Hdef) as (data' & Hloop & Hform & _).
  unfold create_plotting_dataframe in Hb. rewrite Hloop in Hb.
  injection Hb as <-.
  eexists. split.
  - apply filter_compounds_returns. apply Forall_forall. intros row Hrow.
    rewrite Forall_forall in Hdef.
    destruct (Hdef row.1) as (b & Hv & _).
    { apply list_elem_of_fmap. by exists row. }
    by eapply is_valid_formula_Ok_inv.
  - by rewrite Hform, filter_valid_fst.
Qed.

Lemma create_plotting_dataframe_formulas_witness :
  exists kept,
    filter_compounds [("H2O", tt); ("XxO", tt)] water_table = Ok kept /\
    kept.*1 = ["H2O"].
Proof.
  destruct (create_plotting_dataframe ["H2O"; "XxO"] water_table) as [data|] eqn:Hb;
    [|vm_compute in Hb; discriminate Hb].
  destruct (create_plotting_dataframe_formulas
              [("H2O", tt); ("XxO", tt)] water_table data Hb) as (kept & Hk & Hf).
  exists kept. split; [exact Hk|]. rewrite Hf.
  vm_compute in Hb. injection Hb as <-. reflexivity.
Defined.

(** ** Formulas without a symbol *)

(** X12: a formula without a capital letter, the empty one included, is
    valid for every set of symbols, and [create_plotting_dataframe] gives
    it a record with both totals [0.0]. *)
Theorem capital_free_formula_record
    (formula : string) (valid : gset string) (df : properties_table) :
  all_chars (fun c => negb (is_upper c)) formula = true ->
  is_valid_formula formula valid = Ok true /\
  create_plotting_dataframe [formula] df
  = Ok [{| Formula := formula;
           cross_section_total := Float.zero;
           mass_absorption_total := Float.zero |}].
Proof.
  intros Hlow.
  assert (Hp : parse_formula formula = Ok []).
  { unfold parse_formula. by rewrite findall_no_upper. }
  assert (Hv : forall v : gset string, is_valid_formula formula v = Ok true).
  { intros v. by rewrite (is_valid_formula_parsed _ _ _ Hp). }
  split; [apply Hv|].
  unfold create_plotting_dataframe. cbn [for_each].
  rewrite (plotting_step_valid df (symbols df) [] formula
             (Float.zero, []) (Float.zero, []) (Hv _)).
  - done.
  - unfold calculate_compound_neutron_cross_section. by rewrite Hp.
  - unfold calculate_compound_neutron_mass_absorption. by rewrite Hp.
Qed.

Lemma capital_free_formula_record_witness :
  is_valid_formula "n/a" {[ "H" ]} = Ok true /\
  create_plotting_dataframe ["n/a"] water_table
  = Ok [{| Formula := "n/a";
           cross_section_total := Float.zero;
           mass_absorption_total := Float.zero |}].
Proof.
  apply (capital_free_formula_record "n/a" {[ "H" ]} water_table).
  vm_compute. reflexivity.
Defined.

(** ** The outcome of the aggregators *)

(** X13: on a mapping with distinct keys [aggregateCrossSection] raises
    nothing but [ZeroDivisionError], and raises it exactly when there is
    an element and the indices sum to zero; when it returns, the
    contributions have the keys of the mapping, in the same order, and the
    total is the contributions added from left to right. *)
Theorem aggregateCrossSection_outcome
    (parsed : dict float) (cross_sections : gmap string float) :
  NoDup (keys parsed) ->
  match aggregateCrossSection parsed cross_sections with
  | Ok (total, contributions) =>
      (parsed = [] \/ Float.is_zero (py_sum (values parsed)) = false) /\
      keys contributions = keys parsed /\
      total = add_all (values contributions)
  | Raise e =>
      e = ZeroDivisionError /\
      parsed <> [] /\ Float.is_zero (py_sum (values parsed)) = true
  end.
Proof.
  intros Hnd. destruct (Float.is_zero (py_sum (values parsed))) eqn:Hz.
  - destruct parsed as [|kv parsed]; [by split_and!; [left|..]|].
    by rewrite aggregateCrossSection_zero.
  - rewrite aggregateCrossSection_returns by done. split_and!; [by right| |done].
    unfold cross_section_contributions, atomic_fractions.
    by rewrite !keys_dict_map.
Qed.

Lemma aggregateCrossSection_outcome_witness :
  exists total contributions,
    aggregateCrossSection [("H", Float.of_decimal 2 0); ("O", Float.one)]
      (hydrogen_oxygen (fun p => p.1.2))
    = Ok (total, contributions) /\
    keys contributions = ["H"; "O"] /\
    total = add_all (values contributions).
Proof.
  pose proof (aggregateCrossSection_outcome
                [("H", Float.of_decimal 2 0); ("O", Float.one)]
                (hydrogen_oxygen (fun p => p.1.2)) ltac:(by_evaluation)) as H.
  destruct (aggregateCrossSection _ _) as [[total contributions]|e].
  - exists total, contributions. by destruct H as (_ & ? & ?).
  - destruct H as (_ & _ & Hz). vm_compute in Hz. discriminate Hz.
Defined.

(** X14: on a mapping with distinct keys [aggregateMassAbsorption]
    raises nothing but [ZeroDivisionError], and raises it exactly when
    there is an element and the total mass is zero; when it returns, the
    contributions have the keys of the mapping, in the same order, and the
    total is the contributions added from left to right. *)
Theorem aggregateMassAbsorption_outcome
    (parsed : dict float) (weights absorptions : gmap string float) :
  NoDup (keys parsed) ->
  match aggregateMassAbsorption parsed weights absorptions with
  | Ok (total, contributions) =>
      (parsed = [] \/ Float.is_zero (total_mass parsed weights) = false) /\
      keys contributions = keys parsed /\
      total = add_all (values contributions)
  | Raise e =>
      e = ZeroDivisionError /\
      parsed <> [] /\ Float.is_zero (total_mass parsed weights) = true
  end.
Proof.
  intros Hnd. destruct (Float.is_zero (total_mass parsed weights)) eqn:Hz.
  - destruct parsed as [|kv parsed]; [by split_and!; [left|..]|].
    by rewrite aggregateMassAbsorption_zero.
  - rewrite aggregateMassAbsorption_returns by done. split_and!; [by right| |done].
    unfold mass_absorption_contributions, mass_fractions.
    by rewrite !keys_dict_map.
Qed.

Lemma aggregateMassAbsorption_outcome_witness :
  exists total contributions,
    aggregateMassAbsorption [("H", Float.of_decimal 2 0); ("O", Float.one)]
      (hydrogen_oxygen (fun p => p.1.1)) (hydrogen_oxygen (fun p => p.2))
    = Ok (total, contributions) /\
    keys contributions = ["H"; "O"] /\
    total = add_all (values contributions).
Proof.
  pose proof (aggregateMassAbsorption_outcome
                [("H", Float.of_decimal 2 0); ("O", Float.one)]
                (hydrogen_oxygen (fun p => p.1.1)) (hydrogen_oxygen (fun p => p.2))
                ltac:(by_evaluation)) as H.
  destruct (aggregateMassAbsorption _ _ _) as [[total contributions]|e].
  - exists total, contributions. by destruct H as (_ & ? & ?).
  - destruct H as (_ & _ & Hz). vm_compute in Hz. discriminate Hz.
Defined.

(** ** The choices of the plots *)

Lemma ltb_34500_31000 (x : float) :
  Float.ltb (Float.of_decimal 34500 0) x = true ->
  Float.ltb (Float.of_decimal 31000 0) x = true.
Proof.
  set (a := Float.of_decimal 34500 0). set (b := Float.of_decimal 31000 0).
  vm_compute in a, b. subst a b.
  destruct x as [[]|[]| |[] m e]; try done.
  unfold Float.ltb, SFltb, SFcompare.
  destruct (Z.compare_spec (-37) e) as [<-|Hlt|Hgt]; cbv iota beta.
  - done.
  - intros _. by destruct (Z.compare_spec (-38) e); [lia| |lia].
  - done.
Qed.

(** X15: the three row filters are nested: a row that
    [plot_zoom_color_scatter] draws is drawn by [plot_zoom_scatter], and a
    row that [plot_zoom_scatter] draws is drawn by
    [plot_filtered_scatter]. *)
Theorem selections_nested (row : plot_row) :
  (zoom_color_selected row = true -> zoom_selected row = true) /\
  (zoom_selected row = true -> filtered_selected row = true).
Proof.
  unfold zoom_color_selected, zoom_selected, filtered_selected. split.
  - intros [[H1 _]%andb_prop H2]%andb_prop. by rewrite H1, H2.
  - intros [H1 H2]%andb_prop. by rewrite (ltb_34500_31000 _ H1), H2.
Qed.

Lemma zoom_color_parsed (formula : string) (d : dict float) :
  parse_formula formula = Ok d ->
  exists color,
    zoom_color formula = Ok color /\ color ∈ ["red"; "green"; "#0348a1"].
Proof.
  intros Hp. unfold zoom_color. rewrite Hp. cbn [mbind result_bind].
  destruct (Float.eqb _ Float.one); [|destruct (Float.eqb _ _)];
    eexists; (split; [done|]); set_solver.
Qed.

(** X16: on every record that [create_plotting_dataframe] has returned,
    the parser called again by [plot_zoom_scatter] returns, and the marker
    gets one of the three colours. *)
Theorem zoom_color_of_records
    (compounds : list string) (df : properties_table) (data : list plot_row) :
  create_plotting_dataframe compounds df = Ok data ->
  Forall (fun row =>
            exists color,
              zoom_color (Formula row) = Ok color /\
              color ∈ ["red"; "green"; "#0348a1"]) data.
Proof.
  intros Hb. pose proof (plotting_loop_inv _ _ _ _ Hb) as Hdef.
  destruct (plotting_loop df compounds [] Hdef) as (data' & Hloop & _ & Hrows).
  unfold create_plotting_dataframe in Hb. rewrite Hloop in Hb. injection Hb as <-.
  eapply Forall_impl; [exact Hrows|].
  intros row (c1 & c2 & Hcs & _).
  unfold calculate_compound_neutron_cross_section in Hcs.
  destruct (parse_formula (Formula row)) as [d|] eqn:Hp; [|done].
  by eapply zoom_color_parsed.
Qed.

Lemma zoom_color_of_records_witness :
  exists data,
    create_plotting_dataframe ["H2O"; "XxO"; "O"] water_table = Ok data /\
    Forall (fun row =>
              exists color,
                zoom_color (Formula row) = Ok color /\
                color ∈ ["red"; "green"; "#0348a1"]) data.
Proof.
  destruct (create_plotting_dataframe ["H2O"; "XxO"; "O"] water_table)
    as [data|] eqn:Hb; [|vm_compute in Hb; discriminate Hb].
  exists data. split; [reflexivity|].
  exact (zoom_color_of_records ["H2O"; "XxO"; "O"] water_table data Hb).
Defined.

Lemma parse_formula_symbol (c : ascii) (lows : string) :
  is_upper c = true -> all_chars is_lower lows = true ->
  parse_formula (String c lows) = Ok [(String c lows, Float.one)].
Proof.
  intros Hc Hlows. unfold parse_formula.
  pose proof (match_token_symbol_digits c lows "" Hc Hlows eq_refl) as Hm.
  rewrite string_app_nil_r in Hm. by rewrite (findall_match _ _ _ Hm).
Qed.

(** X17: the marker of a formula that is one element symbol without
    index is red in [plot_zoom_scatter]. *)
Theorem zoom_color_symbol (c : ascii) (lows : string) :
  is_upper c = true -> all_chars is_lower lows = true ->
  zoom_color (String c lows) = Ok "red".
Proof.
  intros Hc Hlows. unfold zoom_color.
  by rewrite (parse_formula_symbol c lows Hc Hlows).
Qed.

Lemma zoom_color_symbol_witness : zoom_color "Gd" = Ok "red".
Proof. apply (zoom_color_symbol "G" "d"); by_evaluation. Defined.

Lemma groups_disjoint :
  group1 ## group2 /\ group1 ## group3 /\ group1 ## group4 /\ group1 ## group5 /\
  group2 ## group3 /\ group2 ## group4 /\ group2 ## group5 /\
  group3 ## group4 /\ group3 ## group5 /\ group4 ## group5.
Proof. split_and!; by_evaluation. Qed.

(** X18: the five groups of [plot_zoom_color_scatter] share no formula,
    so the colour of a marker tells its group: it is the colour of a group
    exactly when the formula belongs to that group, and gray exactly when
    it belongs to none. *)
Theorem group_color_group (formula : string) :
  (group_color formula = "#c3121e" <-> formula ∈ group1) /\
  (group_color formula = "#0348a1" <-> formula ∈ group2) /\
  (group_color formula = "#ffb01c" <-> formula ∈ group3) /\
  (group_color formula = "#027608" <-> formula ∈ group4) /\
  (group_color formula = "#1dace6" <-> formula ∈ group5) /\
  (group_color formula = "gray" <->
   formula ∉ group1 ∪ group2 ∪ group3 ∪ group4 ∪ group5).
Proof.
  destruct groups_disjoint as
    (H12 & H13 & H14 & H15 & H23 & H24 & H25 & H34 & H35 & H45).
  unfold group_color.
  repeat case_decide; split_and!; split; intros Hx;
    first [ done
          | discriminate Hx
          | exfalso;
            match goal with
            | Ha : formula ∈ ?g1, Hb : formula ∈ ?g2, Hd : ?g1 ## ?g2 |- _ =>
                exact (Hd formula Ha Hb)
            | Ha : formula ∈ ?g1, Hb : formula ∈ ?g2, Hd : ?g2 ## ?g1 |- _ =>
                exact (Hd formula Hb Ha)
            end
          | rewrite !elem_of_union in *; tauto ].
Qed.

(** ** Validity by the text, and the batch by parts *)

Lemma accumulate_keys_elem (toks : list (string * string)) (e : string) :
  e ∈ keys (accumulate toks []) <-> e ∈ toks.*1.
Proof.
  destruct (decide (e ∈ toks.*1)) as [Hin|Hout].
  - split; [done|]. intros _.
    destruct (decide (e ∈ keys (accumulate toks []))) as [|Hn]; [done|].
    apply dict_get_None in Hn. rewrite accumulate_get in Hn.
    destruct (indices_of e toks) eqn:E; [|done].
    by apply indices_of_nil_iff in E.
  - split; [|done]. intros Hk. exfalso.
    apply indices_of_nil_iff in Hout.
    assert (Hget : dict_get (accumulate toks []) e = None).
    { rewrite accumulate_get. by rewrite Hout. }
    by apply dict_get_None in Hget.
Qed.

(** X19: a formula is valid exactly when none of its tokens has a lone
    point and every symbol the pattern matches in it belongs to the
    set. *)
Theorem is_valid_formula_by_tokens (formula : string) (valid : gset string) :
  is_valid_formula formula valid = Ok true <->
  Forall has_index (findall formula) /\
  forall e, e ∈ (findall formula).*1 -> e ∈ valid.
Proof.
  split.
  - intros Hv. pose proof (is_valid_formula_Ok_inv _ _ _ Hv) as Hi.
    split; [done|]. intros e He.
    rewrite (is_valid_formula_parsed _ _ _ (parse_formula_returns _ Hi)) in Hv.
    injection Hv as Hv. apply bool_decide_eq_true in Hv.
    rewrite Forall_forall in Hv. by apply Hv, accumulate_keys_elem.
  - intros [Hi Hall].
    rewrite (is_valid_formula_parsed _ _ _ (parse_formula_returns _ Hi)).
    f_equal. apply bool_decide_eq_true, Forall_forall.
    intros e He. by apply Hall, accumulate_keys_elem.
Qed.

Lemma plotting_loop_from (df : properties_table) (compounds : list string)
    (data : list plot_row) :
  for_each (plotting_step df (symbols df)) compounds data
  = (rows ← for_each (plotting_step df (symbols df)) compounds []; Ok (data ++ rows)).
Proof.
  revert data. induction compounds as [|formula compounds IH]; intros data.
  - cbn. by rewrite app_nil_r.
  - cbn [for_each].
    destruct (is_valid_formula formula (symbols df)) as [[]|e] eqn:Hv.
    + destruct (calculate_compound_neutron_cross_section formula df)
        as [cs|e] eqn:Hcs.
      2:{ unfold plotting_step. by rewrite Hv, Hcs. }
      destruct (calculate_compound_neutron_mass_absorption formula df)
        as [ma|e] eqn:Hma.
      2:{ unfold plotting_step. by rewrite Hv, Hcs, Hma. }
      rewrite !(plotting_step_valid _ _ _ _ _ _ Hv Hcs Hma).
      cbn [mbind result_bind].
      rewrite (IH (data ++ _)), (IH ([] ++ _)).
      destruct (for_each _ compounds []) as [rows|]; cbn [mbind result_bind]; [|done].
      by rewrite <- app_assoc.
    + rewrite !(plotting_step_invalid _ _ _ _ Hv). cbn [mbind result_bind].
      apply IH.
    + unfold plotting_step. by rewrite Hv.
Qed.

(** X20: the batch goes formula by formula: on two lists one after the
    other [create_plotting_dataframe] returns the records of the first
    followed by those of the second, and raises the exception of the first
    list that raises. *)
Theorem create_plotting_dataframe_app
    (compounds1 compounds2 : list string) (df : properties_table) :
  create_plotting_dataframe (compounds1 ++ compounds2) df
  = (data1 ← create_plotting_dataframe compounds1 df;
     data2 ← create_plotting_dataframe compounds2 df;
     Ok (data1 ++ data2)).
Proof.
  unfold create_plotting_dataframe. rewrite for_each_app.
  destruct (for_each _ compounds1 []) as [data1|]; cbn [mbind result_bind]; [|done].
  apply plotting_loop_from.
Qed.
